(** * The file download engine of [automas/mcp/servers/download/server.py]

    A shallow embedding of the name resolver ([_sanitize_filename],
    [_extract_filename_from_url], [_get_unique_filepath]), of the streaming
    fetcher ([_download_single_file_internal]) and of the batch orchestrator
    ([download_files]), followed by the properties of the engine.

    Python values are modelled as follows: [str] is [string], [int] is [Z],
    [Optional[T]] is [option T], [bytes] is [list byte], a [pathlib.Path]
    (POSIX flavour) is the record [path], and a [dict] is a [gmap].

    The file system is a finite map from the text of a path to a node, and
    the requests sent are kept in a log; the two make the [world] a download
    runs in. What the network answers to one download is given as an [env].

    Every exception the code can meet is an [Exception] and ends in the
    handler of [_download_single_file_internal]; a raise is modelled as the
    failure result that handler builds. Cancellation of a coroutine from
    outside is not part of the model.

    A coroutine is a [task]: it runs from one suspension point to the next in
    a [step], and the event loop interleaves the steps of the coroutines of a
    batch in an order given as a schedule. The suspension points are the
    places where the source waits for the network: the answer to
    [client.head], the answer to [client.stream], and each chunk of
    [aiter_bytes]. *)

From Stdlib Require Import ZArith Ascii String Strings.Byte List Lia Bool.
From Stdlib Require Import Decimal DecimalString DecimalZ.
From stdpp Require Import base option gmap strings list fin_maps.

Local Open Scope Z_scope.

(** ** Python string primitives *)

(** [len(s)] *)
Definition py_len (s : string) : Z := Z.of_nat (String.length s).

(** [not s] for a string: the empty string is falsy. *)
Definition is_empty (s : string) : bool :=
  match s with EmptyString => true | String _ _ => false end.

Fixpoint take_str (n : nat) (s : string) : string :=
  match n, s with
  | S n', String a s' => String a (take_str n' s')
  | _, _ => EmptyString
  end.

Fixpoint drop_str (n : nat) (s : string) : string :=
  match n, s with
  | S n', String _ s' => drop_str n' s'
  | _, _ => s
  end.

(** The slice [s[:k]]; a negative [k] counts from the end and is clamped at
    the start of the string, as Python does. *)
Definition slice_to (s : string) (k : Z) : string :=
  if 0 <=? k then take_str (Z.to_nat k) s
  else take_str (Z.to_nat (py_len s + k)) s.

(** The slice [s[i:]] for [0 <= i]. *)
Definition slice_from (s : string) (i : Z) : string := drop_str (Z.to_nat i) s.

Fixpoint rfind_from (c : ascii) (s : string) (i last : Z) : Z :=
  match s with
  | EmptyString => last
  | String a s' => rfind_from c s' (i + 1) (if Ascii.eqb a c then i else last)
  end.

(** [s.rfind(c)]: index of the last occurrence of [c], or [-1]. *)
Definition rfind (c : ascii) (s : string) : Z := rfind_from c s 0 (-1).

(** [c in s] for a one-character [c]. *)
Fixpoint contains_char (c : ascii) (s : string) : bool :=
  match s with
  | EmptyString => false
  | String a s' => Ascii.eqb a c || contains_char c s'
  end.

(** [s.startswith(p)] *)
Fixpoint startswith (p s : string) : bool :=
  match p, s with
  | EmptyString, _ => true
  | String a p', String b s' => Ascii.eqb a b && startswith p' s'
  | String _ _, EmptyString => false
  end.

Fixpoint lstrip (chars : ascii -> bool) (s : string) : string :=
  match s with
  | EmptyString => EmptyString
  | String a s' => if chars a then lstrip chars s' else s
  end.

Fixpoint rstrip (chars : ascii -> bool) (s : string) : string :=
  match s with
  | EmptyString => EmptyString
  | String a s' =>
      let r := rstrip chars s' in
      if chars a && is_empty r then EmptyString else String a r
  end.

(** [s.strip(chars)] *)
Definition strip (chars : ascii -> bool) (s : string) : string :=
  rstrip chars (lstrip chars s).

(** [s.split(sep)] for a one-character separator. *)
Fixpoint split_on (sep : ascii) (s : string) : list string :=
  match s with
  | EmptyString => [EmptyString]
  | String a s' =>
      if Ascii.eqb a sep then EmptyString :: split_on sep s'
      else match split_on sep s' with
           | h :: t => String a h :: t
           | [] => [String a EmptyString]
           end
  end.

(** [str(n)] for an [int]. *)
Definition str_of_int (n : Z) : string := NilZero.string_of_int (Z.to_int n).

(** ** [pathlib] paths, POSIX flavour

    [PurePosixPath] as in Python 3.8 to 3.13: a root ([/], [//] or none) and
    the components, with [suffix] and [stem] split at the last dot of the
    name when that dot is neither its first nor its last character. *)

Record path := Path_ { root : string; parts : list string }.

Definition parse_root (s : string) : string :=
  match s with
  | String "/" (String "/" (String "/" _)) => "/"
  | String "/" (String "/" _) => "//"
  | String "/" _ => "/"
  | _ => ""
  end.

Definition is_component (s : string) : bool :=
  negb (is_empty s) && negb (String.eqb s ".").

(** [Path(s)]: empty and [.] components are dropped. *)
Definition Path (s : string) : path :=
  Path_ (parse_root s) (List.filter is_component (split_on "/" s)).

(** The text before the last component of [str(p)], with its separators. *)
Fixpoint join_dir (ps : list string) : string :=
  match ps with
  | [] => ""
  | x :: xs => x +:+ "/" +:+ join_dir xs
  end.

(** [str(p)] *)
Definition path_str (p : path) : string :=
  match parts p with
  | [] => if is_empty (root p) then "." else root p
  | _ => root p +:+ join_dir (removelast (parts p)) +:+ List.last (parts p) ""
  end.

Module pathlib.

(** [p.name] *)
Definition name (p : path) : string := List.last (parts p) "".

(** [p.suffix] *)
Definition suffix (p : path) : string :=
  let n := name p in
  let i := rfind "." n in
  if (0 <? i) && (i <? py_len n - 1) then slice_from n i else "".

(** [p.stem] *)
Definition stem (p : path) : string :=
  let n := name p in
  let i := rfind "." n in
  if (0 <? i) && (i <? py_len n - 1) then slice_to n i else n.

(** [p.parent] *)
Definition parent (p : path) : path := Path_ (root p) (removelast (parts p)).

(** [p / s] *)
Definition joinpath (p : path) (s : string) : path :=
  let q := Path s in
  if is_empty (root q) then Path_ (root p) (parts p ++ parts q) else q.

End pathlib.

(** ** Name resolver *)

(** The character class of the regular expression: the nine characters
    less-than, greater-than, colon, double quote (34), slash, backslash (92),
    bar, question mark and star, and the range [\x00-\x1f]. *)
Definition illegal (c : ascii) : bool :=
  match c with
  | "<" | ">" | ":" | "034" | "/" | "092" | "|" | "?" | "*" => true
  | _ => (N_of_ascii c <=? 31)%N
  end%char.

(** [re.sub(class, "_", s)] *)
Fixpoint re_sub_illegal (s : string) : string :=
  match s with
  | EmptyString => EmptyString
  | String a s' => String (if illegal a then "_"%char else a) (re_sub_illegal s')
  end.

(** The argument [". "] of [strip]. *)
Definition dot_or_space (c : ascii) : bool :=
  match c with "." | " " => true | _ => false end%char.

Definition placeholder : string := "downloaded_file".

Definition _sanitize_filename (filename : string) : string :=
  let sanitized := re_sub_illegal filename in
  let sanitized := strip dot_or_space sanitized in
  let sanitized := if is_empty sanitized then placeholder else sanitized in
  if 255 <? py_len sanitized then
    let name := pathlib.stem (Path sanitized) in
    let ext := pathlib.suffix (Path sanitized) in
    let max_name_len := 255 - py_len ext in
    slice_to name max_name_len +:+ ext
  else sanitized.

(** What the Python runtime supplies and this development does not look
    into: [urllib.parse] and the builtin [int]. An exception raised by one of
    them is the result [None]. *)
Class Platform := {
  (** [urllib.parse.urlparse(url)], reduced to the [path] and [query]
      attributes the resolver reads *)
  urlparse : string -> option (string * string);
  (** [urllib.parse.unquote] *)
  unquote : string -> string;
  (** [urllib.parse.parse_qs], a [dict] from names to lists of values *)
  parse_qs : string -> option (gmap string (list string));
  (** [int(s)]: the value, or the text of the [ValueError] *)
  int_of_str : string -> string + Z;
  (** [str(Path.home())] *)
  home : string;
  (** [st_size] of a directory *)
  dir_size : Z
}.

Section Resolver.
Context {platform : Platform}.

(** The loop over [["file", "filename", "name"]] with its [break]; the
    result [None] is the [IndexError] of [query_params[key][0]]. *)
Fixpoint first_param (query_params : gmap string (list string))
    (keys : list string) (filename : string) : option string :=
  match keys with
  | [] => Some filename
  | key :: keys' =>
      match query_params !! key with
      | Some values =>
          match values with
          | v :: _ => Some v
          | [] => None
          end
      | None => first_param query_params keys' filename
      end
  end.

(** The body of the [try] block up to the second [if not filename]. *)
Definition raw_filename (url : string) : option string :=
  '(path, query) ← urlparse url;
  let filename := pathlib.name (Path path) in
  let filename := unquote filename in
  if is_empty filename then
    query_params ← parse_qs query;
    first_param query_params ["file"; "filename"; "name"] filename
  else Some filename.

(** The lines [if "." not in filename: filename = f"{filename}.bin"]. *)
Definition with_default_ext (filename : string) : string :=
  if negb (contains_char "." filename) then filename +:+ ".bin" else filename.

Definition _extract_filename_from_url (url : string) : string :=
  match raw_filename url with
  | Some filename =>
      let filename := if is_empty filename then placeholder else filename in
      _sanitize_filename (with_default_ext filename)
  | None => "downloaded_file.bin"
  end.

End Resolver.

(** ** The file system

    A node is a regular file with its bytes or a directory. A node is known
    by the text of its path: paths are not resolved further (no symbolic
    links, no [..]), and a path without components (the root or the current
    directory) always is a directory. *)

Inductive node :=
| File (content : list byte)
| Dir.

(** [p.exists()] *)
Definition fs_exists (fs : gmap string node) (p : path) : bool :=
  match parts p with
  | [] => true
  | _ => bool_decide (is_Some (fs !! path_str p))
  end.

(** [p.is_dir()] *)
Definition fs_is_dir (fs : gmap string node) (p : path) : bool :=
  match parts p with
  | [] => true
  | _ => match fs !! path_str p with Some Dir => true | _ => false end
  end.

(** [f"{stem}_{counter}{suffix}"] under [parent] *)
Definition candidate (file_path : path) (counter : Z) : path :=
  pathlib.joinpath (pathlib.parent file_path)
    (pathlib.stem file_path +:+ "_" +:+ str_of_int counter +:+ pathlib.suffix file_path).

(** The [while True] loop, run for at most [fuel] rounds. *)
Fixpoint unique_loop (fuel : nat) (fs : gmap string node) (file_path : path)
    (counter : Z) : option path :=
  match fuel with
  | O => None
  | S fuel' =>
      let new_path := candidate file_path counter in
      if negb (fs_exists fs new_path) then Some new_path
      else unique_loop fuel' fs file_path (counter + 1)
  end.

(** One round more than there are nodes always finds a free name
    ([unique_loop_total] below), so the last branch is never taken. *)
Definition _get_unique_filepath (fs : gmap string node) (file_path : path) : path :=
  if negb (fs_exists fs file_path) then file_path
  else match unique_loop (S (size fs)) fs file_path 1 with
       | Some new_path => new_path
       | None => file_path
       end.

(** Errors of the operating system, by [errno]. *)
Inductive os_error := ENOENT | EEXIST | ENOTDIR | EISDIR.

(** [str(e)] of an [OSError] raised for path [p]. *)
Definition strerror (e : os_error) (p : path) : string :=
  match e with
  | ENOENT => "[Errno 2] No such file or directory: '"
  | EEXIST => "[Errno 17] File exists: '"
  | ENOTDIR => "[Errno 20] Not a directory: '"
  | EISDIR => "[Errno 21] Is a directory: '"
  end +:+ path_str p +:+ "'".

(** The parent directory of [p] can hold an entry. *)
Definition check_parent (fs : gmap string node) (p : path) : option os_error :=
  if negb (fs_exists fs (pathlib.parent p)) then Some ENOENT
  else if negb (fs_is_dir fs (pathlib.parent p)) then Some ENOTDIR
  else None.

(** [os.mkdir(p)] *)
Definition os_mkdir (fs : gmap string node) (p : path) : os_error + gmap string node :=
  match check_parent fs p with
  | Some e => inl e
  | None => if fs_exists fs p then inl EEXIST else inr (<[path_str p := Dir]> fs)
  end.

(** [Path.mkdir(parents=True, exist_ok=True)], by recursion on the components
    of the path taken last first. The result is the file system left behind
    and, when the call raises, the error with the path it is about. *)
Fixpoint mkdir_rec (r : string) (rparts : list string) (fs : gmap string node)
    : option (os_error * path) * gmap string node :=
  let p := Path_ r (rev rparts) in
  match os_mkdir fs p with
  | inr fs' => (None, fs')
  | inl ENOENT =>
      match rparts with
      | [] => (Some (ENOENT, p), fs)
      | _ :: rparents =>
          match mkdir_rec r rparents fs with
          | (Some e, fs1) => (Some e, fs1)
          | (None, fs1) =>
              match os_mkdir fs1 p with
              | inr fs2 => (None, fs2)
              | inl ENOENT => (Some (ENOENT, p), fs1)
              | inl e => if fs_is_dir fs1 p then (None, fs1) else (Some (e, p), fs1)
              end
          end
      end
  | inl e => if fs_is_dir fs p then (None, fs) else (Some (e, p), fs)
  end.

Definition mkdir_parents (fs : gmap string node) (p : path)
    : option (os_error * path) * gmap string node :=
  mkdir_rec (root p) (rev (parts p)) fs.

(** [open(p, "wb")]: the file is created, or emptied when it exists. *)
Definition open_wb (fs : gmap string node) (p : path) : os_error + gmap string node :=
  match check_parent fs p with
  | Some e => inl e
  | None => if fs_is_dir fs p then inl EISDIR else inr (<[path_str p := File []]> fs)
  end.

(** The bytes of a file after [chunk] is written at position [offset]; a
    position past the end leaves a gap of zero bytes. *)
Definition write_at (content : list byte) (offset : nat) (chunk : list byte)
    : list byte :=
  take offset content ++ replicate (offset - List.length content) x00 ++ chunk ++
  drop (offset + List.length chunk) content.

(** [f.write(chunk)] on the file opened at [p], by a handle that has written
    [offset] bytes so far. The bytes reach the file the path names; when the
    name is gone they are lost with the unlinked file. Buffering is left out:
    this code looks at the file only after it is closed. *)
Definition fs_write (fs : gmap string node) (p : path) (offset : Z) (chunk : list byte)
    : gmap string node :=
  match fs !! path_str p with
  | Some (File content) =>
      <[path_str p := File (write_at content (Z.to_nat offset) chunk)]> fs
  | _ => fs
  end.

(** [p.unlink()] *)
Definition fs_unlink (fs : gmap string node) (p : path) : os_error + gmap string node :=
  match parts p with
  | [] => inl EISDIR
  | _ => match fs !! path_str p with
         | Some (File _) => inr (delete (path_str p) fs)
         | Some Dir => inl EISDIR
         | None => inl ENOENT
         end
  end.

(** [p.stat().st_size]; the size a directory reports is the system's choice
    and is given as [dir_size]. *)
Definition st_size (dir_size : Z) (fs : gmap string node) (p : path) : Z :=
  match parts p with
  | [] => dir_size
  | _ => match fs !! path_str p with
         | Some (File content) => Z.of_nat (List.length content)
         | _ => dir_size
         end
  end.

(** ** Results *)

Record DownloadResult := {
  file_path : string;
  file_name : string;
  file_size : Z;
  content_type : option string;
  success : bool;
  error : option string
}.

Record DownloadResponse := {
  results : list DownloadResult;
  success_count : Z;
  failed_count : Z
}.

(** ** The text of the size errors *)

Definition two_digits (n : Z) : string :=
  if n <? 10 then "0" +:+ str_of_int n else str_of_int n.

(** [f"{n / d:.2f}"] for integers [n] and [0 < d]: the quotient to two
    decimals, ties to even. This is the text Python prints as long as the
    quotient is an exact float, which holds for [d = 1024 * 1024] and
    [|n| < 2^53]. *)
Definition fmt_2f (n d : Z) : string :=
  let q := Z.abs n * 100 in
  let k := q / d in
  let r := q mod d in
  let hundredths :=
    if d <? 2 * r then k + 1
    else if (2 * r =? d) && Z.odd k then k + 1
    else k in
  (if n <? 0 then "-" else "") +:+
  str_of_int (hundredths / 100) +:+ "." +:+ two_digits (hundredths mod 100).

Definition size_mb (n : Z) : string := fmt_2f n (1024 * 1024).

(** The text of the error raised for a [Content-Length] over the limit. (For
    a [Content-Length] too large for a float the division raises instead and
    the text is that of the [OverflowError]; the download fails all the
    same.) *)
Definition preflight_error (size max_size_mb : Z) : string :=
  "File size (" +:+ size_mb size +:+ " MB) exceeds maximum allowed size (" +:+
  str_of_int max_size_mb +:+ " MB)".

Definition stream_error (downloaded max_size_mb : Z) : string :=
  "File exceeded size limit during download (" +:+ size_mb downloaded +:+ " MB > " +:+
  str_of_int max_size_mb +:+ " MB)".

(** ** The streaming fetcher *)

(** The arguments of [_download_single_file_internal]. The timeout goes to
    the HTTP client; what a timeout does to a request shows in the [env]. *)
Record args := {
  arg_url : string;
  arg_output_dir : string;
  arg_filename : option string;
  arg_timeout : Z;
  arg_max_size_mb : Z
}.

(** An exception of the HTTP client, as far as the [except] clauses tell
    exceptions apart, with its [str]. *)
Inductive exn_class := HTTPStatusError | OtherException.

Record raised := Raise { exn_cls : exn_class; exn_text : string }.

(** What [client.head] does: it raises, or answers with or without a
    [Content-Length] header. *)
Inductive head_outcome :=
| HeadRaises (e : raised)
| HeadResponse (content_length : option string).

(** The answer to the [GET]: the status code with the text
    [raise_for_status] raises for it, the [Content-Type] header, the chunks
    [aiter_bytes] yields, and the text of the exception that ends the
    iteration early, if any. *)
Record response := {
  status_code : Z;
  status_error : string;
  resp_content_type : option string;
  body : list (list byte);
  broken : option string
}.

Inductive get_outcome :=
| GetRaises (text : string)
| GetResponse (r : response).

(** The network as one download sees it. *)
Record env := { env_head : head_outcome; env_get : get_outcome }.

(** Requests sent, oldest first. *)
Inductive event := HEAD (url : string) | GET (url : string).

Record world := { fs : gmap string node; log : list event }.

(** The local variables that live across the suspension points. *)
Record ctx := {
  c_url : string;
  c_filename : string;
  c_file_path : path;
  c_final_filename : string;
  c_max_size_mb : Z;
  c_env : env
}.

Definition max_size_bytes (c : ctx) : Z := c_max_size_mb c * 1024 * 1024.

(** The [except Exception] handler: [filename] is the value of the variable
    when the exception is raised, or the empty string in place of [None]. *)
Definition failure (filename text : string) : DownloadResult :=
  {| file_path := ""; file_name := filename; file_size := 0;
     content_type := None; success := false; error := Some text |}.

(** [response.is_success] *)
Definition is_success (status : Z) : bool := (200 <=? status) && (status <=? 299).

Section Fetcher.
Context {platform : Platform}.

(** The lines [if not filename: ... else: ...]: the name derived from the
    URL, or the caller's name sanitized. *)
Definition resolve_filename (url : string) (filename : option string) : string :=
  match filename with
  | Some f => if is_empty f then _extract_filename_from_url url else _sanitize_filename f
  | None => _extract_filename_from_url url
  end.

(** From the entry of the coroutine to the [HEAD] request. *)
Definition start (a : args) (e : env) (w : world) : (DownloadResult + ctx) * world :=
  let url := arg_url a in
  let filename_or_empty := default "" (arg_filename a) in
  if negb (startswith "http://" url || startswith "https://" url) then
    (inl (failure filename_or_empty
            "Invalid URL format. URL must start with http:// or https://"), w)
  else
    let output_path := Path (arg_output_dir a) in
    match mkdir_parents (fs w) output_path with
    | (Some (err, p), fs1) =>
        (inl (failure filename_or_empty (strerror err p)), {| fs := fs1; log := log w |})
    | (None, fs1) =>
        let filename := resolve_filename url (arg_filename a) in
        let file_path := _get_unique_filepath fs1 (pathlib.joinpath output_path filename) in
        let final_filename := pathlib.name file_path in
        (inr {| c_url := url; c_filename := filename; c_file_path := file_path;
                c_final_filename := final_filename;
                c_max_size_mb := arg_max_size_mb a; c_env := e |},
         {| fs := fs1; log := log w ++ [HEAD url] |})
    end.

(** From the answer to the [HEAD] request to the [GET] request. *)
Definition on_head (c : ctx) (w : world) : (DownloadResult + ctx) * world :=
  let proceed := (inr c, {| fs := fs w; log := log w ++ [GET (c_url c)] |}) in
  match env_head (c_env c) with
  | HeadRaises e =>
      match exn_cls e with
      | HTTPStatusError => proceed
      | OtherException => (inl (failure (c_filename c) (exn_text e)), w)
      end
  | HeadResponse None => proceed
  | HeadResponse (Some content_length) =>
      if is_empty content_length then proceed
      else match int_of_str content_length with
           | inl text => (inl (failure (c_filename c) text), w)
           | inr size =>
               if max_size_bytes c <? size then
                 (inl (failure (c_filename c) (preflight_error size (c_max_size_mb c))), w)
               else proceed
           end
  end.

(** From the answer to the [GET] request to the first chunk: the result is
    the [Content-Type] of a response that is being streamed. *)
Definition on_get (c : ctx) (w : world) : (DownloadResult + option string) * world :=
  match env_get (c_env c) with
  | GetRaises text => (inl (failure (c_filename c) text), w)
  | GetResponse r =>
      if negb (is_success (status_code r)) then
        (inl (failure (c_filename c) (status_error r)), w)
      else match open_wb (fs w) (c_file_path c) with
           | inl e => (inl (failure (c_filename c) (strerror e (c_file_path c))), w)
           | inr fs1 => (inr (resp_content_type r), {| fs := fs1; log := log w |})
           end
  end.

(** One round of the [async for] loop; the result is the new running total. *)
Definition on_chunk (c : ctx) (written : Z) (chunk : list byte) (w : world)
    : (DownloadResult + Z) * world :=
  let downloaded := written + Z.of_nat (List.length chunk) in
  if max_size_bytes c <? downloaded then
    if fs_exists (fs w) (c_file_path c) then
      match fs_unlink (fs w) (c_file_path c) with
      | inl e => (inl (failure (c_filename c) (strerror e (c_file_path c))), w)
      | inr fs1 =>
          (inl (failure (c_filename c) (stream_error downloaded (c_max_size_mb c))),
           {| fs := fs1; log := log w |})
      end
    else (inl (failure (c_filename c) (stream_error downloaded (c_max_size_mb c))), w)
  else (inr downloaded,
        {| fs := fs_write (fs w) (c_file_path c) written chunk; log := log w |}).

(** The end of the iteration: by an exception, or normally and then on to
    the [return]. *)
Definition on_end (c : ctx) (content_type : option string) (broken : option string)
    (w : world) : DownloadResult * world :=
  match broken with
  | Some text => (failure (c_filename c) text, w)
  | None =>
      if negb (fs_exists (fs w) (c_file_path c)) then
        (failure (c_filename c) "File was not created", w)
      else
        ({| file_path := path_str (c_file_path c);
            file_name := c_final_filename c;
            file_size := st_size dir_size (fs w) (c_file_path c);
            content_type := content_type;
            success := true;
            error := None |}, w)
  end.

(** A coroutine of [_download_single_file_internal] between two suspension
    points. *)
Inductive task :=
| Start (a : args) (e : env)
| AwaitHead (c : ctx)
| AwaitGet (c : ctx)
| Streaming (c : ctx) (content_type : option string) (downloaded : Z)
    (chunks : list (list byte)) (broken : option string)
| Done (r : DownloadResult).

Definition stream_of (c : ctx) (content_type : option string) : task :=
  match env_get (c_env c) with
  | GetResponse r => Streaming c content_type 0 (body r) (broken r)
  | GetRaises _ => Streaming c content_type 0 [] None
  end.

(** The coroutine runs from one suspension point to the next. *)
Definition step (t : task) (w : world) : task * world :=
  match t with
  | Start a e =>
      match start a e w with
      | (inl r, w') => (Done r, w')
      | (inr c, w') => (AwaitHead c, w')
      end
  | AwaitHead c =>
      match on_head c w with
      | (inl r, w') => (Done r, w')
      | (inr c', w') => (AwaitGet c', w')
      end
  | AwaitGet c =>
      match on_get c w with
      | (inl r, w') => (Done r, w')
      | (inr content_type, w') => (stream_of c content_type, w')
      end
  | Streaming c content_type downloaded [] broken =>
      let '(r, w') := on_end c content_type broken w in (Done r, w')
  | Streaming c content_type downloaded (chunk :: chunks) broken =>
      match on_chunk c downloaded chunk w with
      | (inl r, w') => (Done r, w')
      | (inr downloaded', w') => (Streaming c content_type downloaded' chunks broken, w')
      end
  | Done r => (Done r, w)
  end.

(** The [async for] loop run to its end. *)
Fixpoint stream (c : ctx) (content_type : option string) (downloaded : Z)
    (chunks : list (list byte)) (broken : option string) (w : world)
    : DownloadResult * world :=
  match chunks with
  | [] => on_end c content_type broken w
  | chunk :: chunks' =>
      match on_chunk c downloaded chunk w with
      | (inl r, w') => (r, w')
      | (inr downloaded', w') => stream c content_type downloaded' chunks' broken w'
      end
  end.

Definition finish_get (c : ctx) (w : world) : DownloadResult * world :=
  match on_get c w with
  | (inl r, w') => (r, w')
  | (inr content_type, w') =>
      match env_get (c_env c) with
      | GetResponse r => stream c content_type 0 (body r) (broken r) w'
      | GetRaises _ => stream c content_type 0 [] None w'
      end
  end.

Definition finish_head (c : ctx) (w : world) : DownloadResult * world :=
  match on_head c w with
  | (inl r, w') => (r, w')
  | (inr c', w') => finish_get c' w'
  end.

(** A coroutine run to its [return] with nothing else in between. *)
Definition finish (t : task) (w : world) : DownloadResult * world :=
  match t with
  | Start a e =>
      match start a e w with
      | (inl r, w') => (r, w')
      | (inr c, w') => finish_head c w'
      end
  | AwaitHead c => finish_head c w
  | AwaitGet c => finish_get c w
  | Streaming c content_type downloaded chunks broken =>
      stream c content_type downloaded chunks broken w
  | Done r => (r, w)
  end.

Definition _download_single_file_internal (url output_dir : string)
    (filename : option string) (timeout max_size_mb : Z) (e : env) (w : world)
    : DownloadResult * world :=
  finish (Start {| arg_url := url; arg_output_dir := output_dir;
                   arg_filename := filename; arg_timeout := timeout;
                   arg_max_size_mb := max_size_mb |} e) w.

Definition MAX_FILE_SIZE_MB : Z := 500.

Definition DEFAULT_DOWNLOAD_DIR : path :=
  pathlib.joinpath (pathlib.joinpath (Path home) "Downloads") "mcp_downloads".

Definition download_single_file (url : string) (output_dir filename : option string)
    (timeout max_size_mb : Z) (e : env) (w : world) : DownloadResult * world :=
  let output_dir := default (path_str DEFAULT_DOWNLOAD_DIR) output_dir in
  _download_single_file_internal url output_dir filename timeout max_size_mb e w.

(** ** The batch orchestrator *)

(** The coroutine at position [i] runs to its next suspension point. *)
Definition step_at (i : nat) (ts : list task) (w : world) : list task * world :=
  match ts !! i with
  | Some t => let '(t', w') := step t w in (<[i := t']> ts, w')
  | None => (ts, w)
  end.

(** The event loop resumes the coroutines in the order [sched]. *)
Fixpoint interleave (sched : list nat) (ts : list task) (w : world)
    : list task * world :=
  match sched with
  | [] => (ts, w)
  | i :: sched' => let '(ts', w') := step_at i ts w in interleave sched' ts' w'
  end.

Fixpoint finish_all (ts : list task) (w : world) : list DownloadResult * world :=
  match ts with
  | [] => ([], w)
  | t :: ts' =>
      let '(r, w1) := finish t w in
      let '(rs, w2) := finish_all ts' w1 in
      (r :: rs, w2)
  end.

(** [asyncio.gather] over the tasks: the coroutines are resumed in the order
    [sched]; those that have not returned by then run on one after the
    other. The results come in the order of the coroutines. *)
Definition gather (sched : list nat) (ts : list task) (w : world)
    : list DownloadResult * world :=
  let '(ts', w') := interleave sched ts w in finish_all ts' w'.

(** [net i] is the network as the download of [urls[i]] sees it. *)
Definition download_files (urls : list string) (output_dir : option string)
    (timeout max_size_mb : Z) (net : nat -> env) (sched : list nat) (w : world)
    : DownloadResponse * world :=
  let output_dir := default (path_str DEFAULT_DOWNLOAD_DIR) output_dir in
  let tasks :=
    imap (fun i url =>
            Start {| arg_url := url; arg_output_dir := output_dir;
                     arg_filename := None; arg_timeout := timeout;
                     arg_max_size_mb := max_size_mb |} (net i)) urls in
  let '(results, w') := gather sched tasks w in
  let success_count := Z.of_nat (List.length (List.filter success results)) in
  let failed_count := Z.of_nat (List.length results) - success_count in
  ({| results := results; success_count := success_count;
      failed_count := failed_count |}, w').

End Fetcher.

(** ** A platform to run the engine on

    Small versions of the library functions, enough for URLs of the shape
    [scheme://host/path?query#fragment] and for decimal numbers. The
    properties below hold for every platform; this one serves the worked
    examples. *)

(** [s.partition(c)]: the text before and after the first [c]. *)
Fixpoint partition (c : ascii) (s : string) : option (string * string) :=
  match s with
  | EmptyString => None
  | String a s' =>
      if Ascii.eqb a c then Some (EmptyString, s')
      else match partition c s' with
           | Some (before, after) => Some (String a before, after)
           | None => None
           end
  end.

Definition before_char (c : ascii) (s : string) : string :=
  match partition c s with Some (before, _) => before | None => s end.

Definition after_char (c : ascii) (s : string) : string :=
  match partition c s with Some (_, after) => after | None => "" end.

(** The path with the parameters after [;] in its last segment cut off. *)
Definition cut_params (p : string) : string :=
  let i := rfind "/" p in
  let last_segment := slice_from p (i + 1) in
  slice_to p (i + 1) +:+ before_char ";" last_segment.

Definition urlparse_ref (url : string) : option (string * string) :=
  let no_fragment := before_char "#" url in
  let main := before_char "?" no_fragment in
  let query := after_char "?" no_fragment in
  match String.index 0 "://" main with
  | Some i =>
      let rest := drop_str (i + 3) main in
      let netloc := before_char "/" rest in
      if xorb (contains_char "[" netloc) (contains_char "]" netloc) then None
      else
        let path := match partition "/" rest with
                    | Some (_, after) => "/" +:+ after
                    | None => ""
                    end in
        Some (cut_params path, query)
  | None => Some (cut_params main, query)
  end.

Definition hex_digit (c : ascii) : option N :=
  let n := N_of_ascii c in
  if (48 <=? n)%N && (n <=? 57)%N then Some (n - 48)%N
  else if (65 <=? n)%N && (n <=? 70)%N then Some (n - 55)%N
  else if (97 <=? n)%N && (n <=? 102)%N then Some (n - 87)%N
  else None.

(** Percent-decoding of the escapes below [%80]. *)
Fixpoint unquote_ref (s : string) : string :=
  match s with
  | String "%" (String h (String l s') as rest) =>
      match hex_digit h, hex_digit l with
      | Some x, Some y =>
          if (x <? 8)%N then String (ascii_of_N (16 * x + y)) (unquote_ref s')
          else String "%" (unquote_ref rest)
      | _, _ => String "%" (unquote_ref rest)
      end
  | String a s' => String a (unquote_ref s')
  | EmptyString => EmptyString
  end.

Fixpoint plus_to_space (s : string) : string :=
  match s with
  | EmptyString => EmptyString
  | String a s' => String (if Ascii.eqb a "+" then " "%char else a) (plus_to_space s')
  end.

Definition add_field (field : string) (d : gmap string (list string))
    : gmap string (list string) :=
  match partition "=" field with
  | Some (k, v) =>
      if is_empty v then d
      else
        let k := unquote_ref (plus_to_space k) in
        let v := unquote_ref (plus_to_space v) in
        <[k := default [] (d !! k) ++ [v]]> d
  | None => d
  end.

Definition parse_qs_ref (query : string) : option (gmap string (list string)) :=
  Some (fold_left (fun d field => add_field field d) (split_on "&" query) ∅).

Fixpoint digits_value (s : string) (acc : Z) : option Z :=
  match s with
  | EmptyString => Some acc
  | String a s' =>
      let n := N_of_ascii a in
      if (48 <=? n)%N && (n <=? 57)%N then digits_value s' (10 * acc + Z.of_N (n - 48))
      else None
  end.

Definition int_of_str_ref (s : string) : string + Z :=
  let t := strip (fun c => Ascii.eqb c " ") s in
  let value :=
    match t with
    | String "-" (String _ _ as digits) => option_map Z.opp (digits_value digits 0)
    | String "+" (String _ _ as digits) => digits_value digits 0
    | String _ _ => digits_value t 0
    | EmptyString => None
    end in
  match value with
  | Some n => inr n
  | None => inl ("invalid literal for int() with base 10: '" +:+ s +:+ "'")
  end.

Definition reference_platform : Platform :=
  {| urlparse := urlparse_ref;
     unquote := unquote_ref;
     parse_qs := parse_qs_ref;
     int_of_str := int_of_str_ref;
     home := "/home/user";
     dir_size := 4096 |}.

(** [c * n] for a one-character string [c]. *)
Fixpoint repeat_char (c : ascii) (n : nat) : string :=
  match n with
  | O => EmptyString
  | S n' => String c (repeat_char c n')
  end.

(** A [200] answer with the given chunks. *)
Definition ok_response (content_type : option string) (chunks : list (list byte))
    : response :=
  {| status_code := 200; status_error := ""; resp_content_type := content_type;
     body := chunks; broken := None |}.

(** [returns t r]: the coroutine [t] can come to return [r], whatever the
    other coroutines make of the file system between two of its steps. *)
Inductive returns {platform : Platform} : task -> DownloadResult -> Prop :=
| returns_done r : returns (Done r) r
| returns_step t w r : returns (step t w).1 r -> returns t r.

(** The arguments [download_files] gives the coroutine of one URL. *)
Definition batch_args (url : string) (output_dir : string) (timeout max_size_mb : Z)
    : args :=
  {| arg_url := url; arg_output_dir := output_dir; arg_filename := None;
     arg_timeout := timeout; arg_max_size_mb := max_size_mb |}.

(** A path as [Path] builds it: every component is non-empty, is not [.]
    and holds no separator. *)
Definition valid_path (p : path) : bool :=
  forallb (fun c => is_component c && negb (contains_char "/" c)) (parts p).

(** The key under which the file system knows the candidate with counter [k]. *)
Definition candidate_key (file_path : path) (k : Z) : string :=
  path_str (candidate file_path k).

(** The node the file operations of a suspended coroutine are about. *)
Definition task_target {platform : Platform} (t : task) : option string :=
  match t with
  | AwaitHead c | AwaitGet c | Streaming c _ _ _ _ => Some (path_str (c_file_path c))
  | Start _ _ | Done _ => None
  end.

(** The running total at the first chunk that takes it over [limit]. *)
Fixpoint first_excess (limit written : Z) (chunks : list (list byte)) : option Z :=
  match chunks with
  | [] => None
  | chunk :: chunks' =>
      let downloaded := written + Z.of_nat (List.length chunk) in
      if limit <? downloaded then Some downloaded
      else first_excess limit downloaded chunks'
  end.

(** The texts of the exceptions the network of one download raises. *)
Definition env_texts (e : env) : list string :=
  match env_head e with
  | HeadRaises r => [exn_text r]
  | HeadResponse _ => []
  end ++
  match env_get e with
  | GetRaises text => [text]
  | GetResponse r => status_error r :: option_list (broken r)
  end.

(** The two shapes of a result: a failure, and a success that reports the
    size of the file that [fs] holds at the reported path. *)
Definition failure_shape (r : DownloadResult) : Prop :=
  success r = false /\ (exists text, error r = Some text) /\
  file_path r = "" /\ file_size r = 0.

Definition success_shape (fs : gmap string node) (r : DownloadResult) : Prop :=
  success r = true /\ file_path r <> "" /\ error r = None /\
  exists content, fs !! file_path r = Some (File content) /\
    file_size r = Z.of_nat (List.length content).

(** The shapes without the file system, for a result met later than it was
    returned. *)
Definition well_shaped (r : DownloadResult) : Prop :=
  (success r = true /\ file_path r <> "" /\ error r = None) \/ failure_shape r.

(** A failure whose text the engine wrote itself, and is then not empty, or
    is the text of an exception of the network or of [int]. *)
Definition failed_by {platform : Platform} (e : env) (r : DownloadResult) : Prop :=
  exists filename text, r = failure filename text /\
    (text <> "" \/ In text (env_texts e) \/ exists s, int_of_str s = inl text).

(** A success that reports the file [fs] holds at [q]. *)
Definition succeeded_at (fs : gmap string node) (q : path) (r : DownloadResult) : Prop :=
  success r = true /\ error r = None /\
  file_path r = path_str q /\ file_name r = pathlib.name q /\
  exists content, fs !! path_str q = Some (File content) /\
    file_size r = Z.of_nat (List.length content).

(** The path a download is resolved to in the world [w]. *)
Definition resolved_path {platform : Platform} (a : args) (w : world) : path :=
  let output_path := Path (arg_output_dir a) in
  _get_unique_filepath (mkdir_parents (fs w) output_path).2
    (pathlib.joinpath output_path (resolve_filename (arg_url a) (arg_filename a))).

(** What holds of a coroutine however far it has come: its target is a path
    as [Path] builds it, and once it has returned the result has one of the
    two shapes. *)
Definition good_task {platform : Platform} (t : task) : Prop :=
  match t with
  | Start _ _ => True
  | AwaitHead c | AwaitGet c | Streaming c _ _ _ _ => valid_path (c_file_path c) = true
  | Done r => well_shaped r
  end.

(** The decimal numeral of [n] occurs in [text]. *)
Definition mentions (n : Z) (text : string) : bool :=
  match String.index 0 (str_of_int n) text with
  | Some _ => true
  | None => false
  end.

(** ** Worked examples: worlds and networks *)

Definition empty_world : world := {| fs := ∅; log := [] |}.

Definition example_url : string := "https://example.com/data.json".

(** No [Content-Length] on the probe, then a [200] answer with one chunk of
    [n] bytes. *)
Definition serves (n : nat) : env :=
  {| env_head := HeadResponse None;
     env_get := GetResponse (ok_response (Some "application/json") [List.repeat x20 n]) |}.

(** The probe is fine, the [GET] request times out; the client's timeout
    exceptions carry no text. *)
Definition times_out : env :=
  {| env_head := HeadResponse None; env_get := GetRaises "" |}.

(** The probe is fine, the [GET] request is answered with status 404. *)
Definition not_found : env :=
  {| env_head := HeadResponse None;
     env_get := GetResponse
       {| status_code := 404;
          status_error := "Client error '404 Not Found' for url 'https://example.com/b'";
          resp_content_type := None; body := []; broken := None |} |}.

(** The probe cannot connect; the [GET] request would be answered. *)
Definition probe_fails : env :=
  {| env_head := HeadRaises (Raise OtherException "All connection attempts failed");
     env_get := env_get (serves 40) |}.

(** Every character of [s] passes [f]. *)
Fixpoint string_forall (f : ascii -> bool) (s : string) : bool :=
  match s with
  | EmptyString => true
  | String a s' => f a && string_forall f s'
  end.

(** The first, the last character of [s] is one of [chars]. *)
Definition starts_with_any (chars : ascii -> bool) (s : string) : bool :=
  match s with
  | EmptyString => false
  | String a _ => chars a
  end.

Fixpoint ends_with_any (chars : ascii -> bool) (s : string) : bool :=
  match s with
  | EmptyString => false
  | String a EmptyString => chars a
  | String _ s' => ends_with_any chars s'
  end.

Definition legal (c : ascii) : bool := negb (illegal c).

(** The name as [_sanitize_filename] has it before it looks at the length. *)
Definition stripped_name (filename : string) : string :=
  let sanitized := strip dot_or_space (re_sub_illegal filename) in
  if is_empty sanitized then placeholder else sanitized.

(** The scheme of a URL: the text before the first colon. *)
Definition url_scheme (url : string) : string := before_char ":" url.

(** ** Further notions for the properties *)

(** A name that stays inside the directory it is joined to: one component,
    not empty, without a separator, and neither [.] nor [..]. *)
Definition safe_name (s : string) : bool :=
  negb (is_empty s) && negb (contains_char "/" s) &&
  negb (String.eqb s ".") && negb (String.eqb s "..").

(** A name [_sanitize_filename] has nothing to do on. *)
Definition clean_name (s : string) : bool :=
  string_forall legal s && negb (is_empty s) &&
  negb (starts_with_any dot_or_space s) && negb (ends_with_any dot_or_space s) &&
  (py_len s <=? 255).

(** What one download may do to the node at key [k]: leave it as it is, or
    put a directory where there was nothing. *)
Definition kept_or_new_dir (before after : gmap string node) (k : string) : Prop :=
  after !! k = before !! k \/ (before !! k = None /\ after !! k = Some Dir).

(** [len(b"".join(chunks))] *)
Definition total_length (chunks : list (list byte)) : Z :=
  Z.of_nat (List.length (List.concat chunks)).

(** The text with which the [GET] request fails before anything is streamed:
    the text of the exception it raises, or the text [raise_for_status]
    raises for a status outside [200..299]. *)
Definition get_failure (e : env) : option string :=
  match env_get e with
  | GetRaises text => Some text
  | GetResponse r => if is_success (status_code r) then None else Some (status_error r)
  end.

(** The character that starts an extension. *)
Definition is_dot (c : ascii) : bool := Ascii.eqb c ".".

(** The probe is answered with the given [Content-Length]; the [GET] request
    would be answered with a body of 40 bytes. *)
Definition announces (content_length : string) : env :=
  {| env_head := HeadResponse (Some content_length); env_get := env_get (serves 40) |}.

(** The probe is fine, the [GET] request is answered with status 200, and
    the stream breaks after one chunk of [n] bytes. *)
Definition breaks_after (n : nat) : env :=
  {| env_head := HeadResponse None;
     env_get := GetResponse
       {| status_code := 200; status_error := ""; resp_content_type := None;
          body := [List.repeat x20 n];
          broken := Some "peer closed connection without sending complete message body" |} |}.

(** The empty directory [/tmp/t]. *)
Definition tmp_t_world : world :=
  {| fs := <["/tmp/t" := Dir]> (<["/tmp" := Dir]> ∅); log := [] |}.

(** [/tmp/t] is a regular file. *)
Definition tmp_t_file_world : world :=
  {| fs := <["/tmp/t" := File []]> (<["/tmp" := Dir]> ∅); log := [] |}.

(** The directory [/tmp/t] with a file [data.json] of one byte. *)
Definition data_json_world : world :=
  {| fs := <["/tmp/t/data.json" := File [x20]]> (fs tmp_t_world); log := [] |}.

(** * Properties *)

(** ** Strings *)

Lemma contains_char_append c s1 s2 :
  contains_char c (s1 +:+ s2) = contains_char c s1 || contains_char c s2.
Proof.
  induction s1 as [|a s1 IH]; simpl; [done|].
  rewrite IH. by rewrite orb_assoc.
Qed.

Lemma contains_char_take c n s :
  contains_char c s = false -> contains_char c (take_str n s) = false.
Proof.
  revert s. induction n as [|n IH]; intros [|a s]; simpl; try done.
  intros [Ha Hs]%orb_false_elim. rewrite Ha. simpl. by apply IH.
Qed.

Lemma contains_char_drop c n s :
  contains_char c s = false -> contains_char c (drop_str n s) = false.
Proof.
  revert s. induction n as [|n IH]; intros [|a s]; simpl; try done.
  intros [Ha Hs]%orb_false_elim. by apply IH.
Qed.

Lemma contains_char_slice_to c s k :
  contains_char c s = false -> contains_char c (slice_to s k) = false.
Proof. intros Hs. unfold slice_to. destruct (0 <=? k); by apply contains_char_take. Qed.

Lemma contains_char_slice_from c s i :
  contains_char c s = false -> contains_char c (slice_from s i) = false.
Proof. intros Hs. by apply contains_char_drop. Qed.

Lemma split_on_nonempty sep s : split_on sep s <> [].
Proof.
  induction s as [|a s IH]; simpl; [done|].
  destruct (Ascii.eqb a sep); [done|]. by destruct (split_on sep s).
Qed.

Lemma split_on_no_sep sep s x :
  In x (split_on sep s) -> contains_char sep x = false.
Proof.
  revert x. induction s as [|a s IH]; intros x; simpl.
  - by intros [<-|[]].
  - destruct (Ascii.eqb a sep) eqn:Ha.
    + intros [<-|Hx]; [done|]. by apply IH.
    + destruct (split_on sep s) as [|h t] eqn:Hsplit.
      * intros [<-|[]]. simpl. by rewrite Ha.
      * intros [<-|Hx].
        -- simpl. rewrite Ha. simpl. apply IH. by left.
        -- apply IH. by right.
Qed.

Lemma split_on_absent sep s : contains_char sep s = false -> split_on sep s = [s].
Proof.
  induction s as [|a s IH]; simpl; [done|].
  intros [Ha Hs]%orb_false_elim. rewrite Ha, (IH Hs). done.
Qed.

Lemma append_nil_r s : s +:+ "" = s.
Proof. induction s as [|a s IH]; simpl; [done|]. unfold String.app in *. simpl. by rewrite IH. Qed.

Lemma append_assoc s1 s2 s3 : (s1 +:+ s2) +:+ s3 = s1 +:+ (s2 +:+ s3).
Proof.
  unfold String.app. induction s1 as [|a s1 IH]; simpl; [done|]. by rewrite IH.
Qed.

Lemma length_append s1 s2 :
  String.length (s1 +:+ s2) = (String.length s1 + String.length s2)%nat.
Proof. unfold String.app. induction s1 as [|a s1 IH]; simpl; [done|]. by rewrite IH. Qed.

Lemma append_inj_r s1 s2 t : s1 +:+ t = s2 +:+ t -> s1 = s2.
Proof.
  revert s2. induction s1 as [|a s1 IH]; intros [|b s2] Heq.
  - done.
  - apply (f_equal String.length) in Heq. rewrite !length_append in Heq.
    simpl in Heq. lia.
  - apply (f_equal String.length) in Heq. rewrite !length_append in Heq.
    simpl in Heq. lia.
  - unfold String.app in Heq. simpl in Heq. injection Heq as -> Heq.
    f_equal. by apply IH.
Qed.

Lemma append_empty s1 s2 : s1 +:+ s2 = "" -> s1 = "" /\ s2 = "".
Proof. unfold String.app. by destruct s1. Qed.

(** ** Decimal numerals *)

Lemma uint_digits_no_slash d : contains_char "/" (NilEmpty.string_of_uint d) = false.
Proof. induction d; simpl; done. Qed.

Lemma str_of_int_no_slash n : contains_char "/" (str_of_int n) = false.
Proof.
  unfold str_of_int, NilZero.string_of_int, NilZero.string_of_uint.
  destruct (Z.to_int n) as [d|d]; destruct d; simpl; try done; apply uint_digits_no_slash.
Qed.

Lemma to_int_not_nil n : Z.to_int n <> Decimal.Pos Nil /\ Z.to_int n <> Decimal.Neg Nil.
Proof.
  destruct n as [|p|p]; simpl; split; try done.
  - intros [= Hp]. by apply (DecimalPos.Unsigned.to_uint_nonnil p).
  - intros [= Hp]. by apply (DecimalPos.Unsigned.to_uint_nonnil p).
Qed.

Lemma str_of_int_inj n m : str_of_int n = str_of_int m -> n = m.
Proof.
  unfold str_of_int. intros Heq. apply DecimalZ.to_int_inj.
  destruct (to_int_not_nil n) as [Hn1 Hn2], (to_int_not_nil m) as [Hm1 Hm2].
  pose proof (NilZero.isi _ Hn1 Hn2) as Hn. pose proof (NilZero.isi _ Hm1 Hm2) as Hm.
  rewrite Heq in Hn. congruence.
Qed.



(** ** Paths *)

Lemma valid_Path s : valid_path (Path s) = true.
Proof.
  unfold valid_path, Path. simpl. apply forallb_forall. intros x Hx.
  apply List.filter_In in Hx as [Hx Hc]. rewrite Hc. simpl.
  by rewrite (split_on_no_sep _ _ _ Hx).
Qed.

Lemma forallb_removelast {A} (f : A -> bool) (l : list A) :
  forallb f l = true -> forallb f (removelast l) = true.
Proof.
  induction l as [|x l IH]; simpl; [done|].
  intros [Hx Hl]%andb_prop. destruct l as [|y l]; [done|].
  simpl in *. rewrite Hx. simpl. by apply IH.
Qed.

Lemma valid_parent p : valid_path p = true -> valid_path (pathlib.parent p) = true.
Proof. apply forallb_removelast. Qed.

Lemma valid_joinpath p s : valid_path p = true -> valid_path (pathlib.joinpath p s) = true.
Proof.
  intros Hp. unfold pathlib.joinpath.
  pose proof (valid_Path s) as Hs.
  destruct (is_empty (root (Path s))); [|done].
  unfold valid_path in *. cbn [parts]. rewrite forallb_app.
  apply andb_true_intro. by split.
Qed.

Lemma name_no_slash p :
  valid_path p = true -> contains_char "/" (pathlib.name p) = false.
Proof.
  unfold valid_path, pathlib.name. induction (parts p) as [|x l IH]; simpl; [done|].
  intros [Hx Hl]%andb_prop. destruct l as [|y l].
  - apply andb_prop in Hx as [_ Hx]. by apply negb_true_iff in Hx.
  - by apply IH.
Qed.

Lemma stem_no_slash p :
  valid_path p = true -> contains_char "/" (pathlib.stem p) = false.
Proof.
  intros Hp. unfold pathlib.stem. pose proof (name_no_slash p Hp) as Hn.
  destruct (_ && _); [by apply contains_char_slice_to|done].
Qed.

Lemma suffix_no_slash p :
  valid_path p = true -> contains_char "/" (pathlib.suffix p) = false.
Proof.
  intros Hp. unfold pathlib.suffix. pose proof (name_no_slash p Hp) as Hn.
  destruct (_ && _); [by apply contains_char_slice_from|done].
Qed.

(** The name of the candidate with counter [k]. *)
Lemma candidate_name_no_slash p k :
  valid_path p = true ->
  contains_char "/"
    (pathlib.stem p +:+ "_" +:+ str_of_int k +:+ pathlib.suffix p) = false.
Proof.
  intros Hp. rewrite !contains_char_append.
  rewrite (stem_no_slash p Hp), (suffix_no_slash p Hp), str_of_int_no_slash. done.
Qed.

Lemma underscore_is_component s : contains_char "_" s = true -> is_component s = true.
Proof.
  destruct s as [|a s]; [done|]. intros Hc. unfold is_component.
  destruct (String.eqb_spec (String a s) ".") as [Heq|Hne]; [|done].
  injection Heq as -> ->. done.
Qed.

Lemma parse_root_no_slash s : contains_char "/" s = false -> parse_root s = "".
Proof.
  destruct s as [|a s]; [done|]. simpl. intros [Ha _]%orb_false_elim.
  destruct a as [[] [] [] [] [] [] [] []]; done.
Qed.

Lemma Path_component s :
  contains_char "/" s = false -> is_component s = true -> Path s = Path_ "" [s].
Proof.
  intros Hs Hc. unfold Path. rewrite (parse_root_no_slash s Hs), (split_on_absent _ _ Hs).
  simpl. by rewrite Hc.
Qed.

Lemma candidate_eq p k :
  valid_path p = true ->
  candidate p k =
    Path_ (root p)
      (removelast (parts p) ++
       [pathlib.stem p +:+ "_" +:+ str_of_int k +:+ pathlib.suffix p]).
Proof.
  intros Hp. unfold candidate, pathlib.joinpath.
  rewrite Path_component; [done|by apply candidate_name_no_slash|].
  apply underscore_is_component. rewrite !contains_char_append. simpl.
  by rewrite orb_true_r.
Qed.

Lemma path_str_snoc r ps a : path_str (Path_ r (ps ++ [a])) = r +:+ join_dir ps +:+ a.
Proof.
  unfold path_str. simpl. rewrite removelast_last, last_last.
  by destruct ps.
Qed.

Lemma candidate_key_eq p k :
  valid_path p = true ->
  candidate_key p k =
    root p +:+ join_dir (removelast (parts p)) +:+
    pathlib.stem p +:+ "_" +:+ str_of_int k +:+ pathlib.suffix p.
Proof. intros Hp. unfold candidate_key. by rewrite candidate_eq, path_str_snoc. Qed.

Lemma candidate_key_inj p k k' :
  valid_path p = true -> candidate_key p k = candidate_key p k' -> k = k'.
Proof.
  intros Hp. rewrite !candidate_key_eq by done. intros Heq.
  do 4 apply (inj (String.app _)) in Heq.
  apply append_inj_r in Heq. by apply str_of_int_inj.
Qed.

Lemma candidate_parts p k : valid_path p = true -> parts (candidate p k) <> [].
Proof. intros Hp. rewrite candidate_eq by done. simpl. by destruct (removelast _). Qed.

Lemma fs_exists_lookup fs p :
  parts p <> [] -> fs_exists fs p = bool_decide (is_Some (fs !! path_str p)).
Proof. unfold fs_exists. by destruct (parts p). Qed.

Lemma fs_exists_false fs p :
  fs_exists fs p = false -> parts p <> [] /\ fs !! path_str p = None.
Proof.
  unfold fs_exists. destruct (parts p) eqn:Hp; [done|].
  intros Hex%bool_decide_eq_false. split; [done|].
  by apply eq_None_not_Some.
Qed.

Lemma candidate_exists fs p k :
  valid_path p = true ->
  fs_exists fs (candidate p k) = true -> candidate_key p k ∈ dom fs.
Proof.
  intros Hp. rewrite fs_exists_lookup by by apply candidate_parts.
  intros Hex%bool_decide_eq_true. by apply elem_of_dom.
Qed.

Lemma forallb_last {A} (f : A -> bool) (l : list A) (d : A) :
  l <> [] -> forallb f l = true -> f (List.last l d) = true.
Proof.
  induction l as [|x l IH]; [done|]. intros _ [Hx Hl]%andb_prop.
  destruct l as [|y l]; [done|]. by apply IH.
Qed.

Lemma path_str_nonempty p : valid_path p = true -> path_str p <> "".
Proof.
  intros Hp. unfold path_str. destruct (parts p) as [|x l] eqn:Hparts.
  - by destruct (root p).
  - intros (_ & (_ & Hlast)%append_empty)%append_empty.
    unfold valid_path in Hp. rewrite Hparts in Hp.
    apply (forallb_last _ _ "") in Hp; [|done]. rewrite Hlast in Hp. done.
Qed.

Lemma st_size_file dir_size fs p content :
  parts p <> [] -> fs !! path_str p = Some (File content) ->
  st_size dir_size fs p = Z.of_nat (length content).
Proof. intros Hp Hk. unfold st_size. rewrite Hk. by destruct (parts p). Qed.

(** ** The collision resolver *)

Lemma unique_loop_Some fuel fs p c q :
  unique_loop fuel fs p c = Some q ->
  exists k, c <= k < c + Z.of_nat fuel /\ q = candidate p k /\
    fs_exists fs q = false /\
    forall j, c <= j < k -> fs_exists fs (candidate p j) = true.
Proof.
  revert c. induction fuel as [|fuel IH]; intros c; simpl; [done|].
  destruct (fs_exists fs (candidate p c)) eqn:Hex; simpl.
  - intros (k & Hk & -> & Hfree & Hbelow)%IH. exists k. repeat split; [lia..|done|].
    intros j Hj. destruct (decide (j = c)) as [->|]; [done|]. apply Hbelow. lia.
  - intros [= <-]. exists c. repeat split; [lia..|done|]. intros j Hj. lia.
Qed.

Lemma unique_loop_None fuel fs p c :
  unique_loop fuel fs p c = None ->
  forall i, (i < fuel)%nat -> fs_exists fs (candidate p (c + Z.of_nat i)) = true.
Proof.
  revert c. induction fuel as [|fuel IH]; intros c; simpl; [lia|].
  destruct (fs_exists fs (candidate p c)) eqn:Hex; simpl; [|done].
  intros Hnone [|i] Hi.
  - by rewrite Z.add_0_r.
  - replace (c + Z.of_nat (S i)) with (c + 1 + Z.of_nat i) by lia.
    apply IH; [done|lia].
Qed.

(** There are more candidates than nodes, and no two candidates are the same
    node: the loop comes to a free one. *)
Lemma unique_loop_total fs p c :
  valid_path p = true -> unique_loop (S (size fs)) fs p c <> None.
Proof.
  intros Hp Hnone.
  pose proof (unique_loop_None _ _ _ _ Hnone) as Hall.
  set (keys := (fun i : nat => candidate_key p (c + Z.of_nat i)) <$> seq 0 (S (size fs))).
  assert (NoDup keys) as Hnodup.
  { apply NoDup_fmap_2_strong; [|apply NoDup_seq].
    intros i j _ _ Hij. apply candidate_key_inj in Hij; [lia|done]. }
  assert (list_to_set keys ⊆ dom fs) as Hsub.
  { intros x Hx. apply elem_of_list_to_set, list_elem_of_fmap in Hx as (i & -> & Hi).
    apply elem_of_seq in Hi. apply candidate_exists; [done|]. apply Hall. lia. }
  apply subseteq_size in Hsub.
  rewrite size_list_to_set, size_dom in Hsub by done.
  unfold keys in Hsub. rewrite length_fmap, length_seq in Hsub. lia.
Qed.


Lemma candidate_name p k :
  valid_path p = true ->
  pathlib.name (candidate p k) =
    pathlib.stem p +:+ "_" +:+ str_of_int k +:+ pathlib.suffix p.
Proof.
  intros Hp. rewrite candidate_eq by done. unfold pathlib.name. simpl.
  by rewrite last_last.
Qed.

Lemma valid_candidate p k : valid_path p = true -> valid_path (candidate p k) = true.
Proof.
  intros Hp. unfold candidate. by apply valid_joinpath, valid_parent.
Qed.

(** What the resolver returns: the path itself when it is free, and otherwise
    the candidate with the least counter from 1 on that is free. *)
Lemma unique_filepath_cases fs p :
  valid_path p = true ->
  (fs_exists fs p = false /\ _get_unique_filepath fs p = p) \/
  (fs_exists fs p = true /\
   exists k, 1 <= k /\ _get_unique_filepath fs p = candidate p k /\
     fs_exists fs (candidate p k) = false /\
     forall j, 1 <= j < k -> fs_exists fs (candidate p j) = true).
Proof.
  intros Hp. unfold _get_unique_filepath.
  destruct (fs_exists fs p) eqn:Hex; cbn [negb]; [right|by left].
  split; [done|].
  destruct (unique_loop (S (size fs)) fs p 1) as [q|] eqn:Hloop.
  - apply unique_loop_Some in Hloop as (k & Hk & -> & Hfree & Hbelow).
    exists k. repeat split; [lia|done..].
  - by apply unique_loop_total in Hloop.
Qed.

Lemma unique_filepath_free fs p :
  valid_path p = true -> fs_exists fs (_get_unique_filepath fs p) = false.
Proof.
  intros Hp. destruct (unique_filepath_cases fs p Hp) as [[Hex ->]|[_ (k & _ & -> & Hfree & _)]]; done.
Qed.

Lemma unique_filepath_valid fs p :
  valid_path p = true -> valid_path (_get_unique_filepath fs p) = true.
Proof.
  intros Hp. destruct (unique_filepath_cases fs p Hp) as [[Hex ->]|[_ (k & _ & -> & _)]];
    [done|by apply valid_candidate].
Qed.

(** ** The file system operations touch one node *)

Lemma os_mkdir_preserves fs p fs' k n :
  os_mkdir fs p = inr fs' -> fs !! k = Some n -> fs' !! k = Some n.
Proof.
  unfold os_mkdir. destruct (check_parent fs p); [done|].
  destruct (fs_exists fs p) eqn:Hex; [done|]. intros [= <-] Hk.
  apply fs_exists_false in Hex as [_ Hnone].
  rewrite lookup_insert_ne; [done|]. congruence.
Qed.

Lemma mkdir_rec_preserves r rparts fs k n :
  fs !! k = Some n -> (mkdir_rec r rparts fs).2 !! k = Some n.
Proof.
  revert fs. induction rparts as [|x rparents IH]; intros fs Hk; cbn [mkdir_rec].
  - destruct (os_mkdir fs (Path_ r (rev []))) as [err|fs'] eqn:Hmk.
    + destruct err; try done; by destruct (fs_is_dir fs _).
    + simpl. by eapply os_mkdir_preserves.
  - destruct (os_mkdir fs (Path_ r (rev (x :: rparents)))) as [err|fs'] eqn:Hmk.
    + destruct err; try (by destruct (fs_is_dir fs _)).
      specialize (IH fs Hk).
      destruct (mkdir_rec r rparents fs) as [[e|] fs1]; [done|].
      destruct (os_mkdir fs1 (Path_ r (rev (x :: rparents)))) as [err|fs2] eqn:Hmk2.
      * destruct err; try done; by destruct (fs_is_dir fs1 _).
      * cbn [snd] in *. by eapply os_mkdir_preserves.
    + cbn [snd]. by eapply os_mkdir_preserves.
Qed.

Lemma open_wb_lookup fs p fs' :
  open_wb fs p = inr fs' ->
  parts p <> [] /\ fs' !! path_str p = Some (File []) /\
  forall k, k <> path_str p -> fs' !! k = fs !! k.
Proof.
  unfold open_wb. destruct (check_parent fs p); [done|].
  destruct (fs_is_dir fs p) eqn:Hdir; [done|]. intros [= <-].
  split; [|split].
  - intros Hp. unfold fs_is_dir in Hdir. by rewrite Hp in Hdir.
  - apply lookup_insert_eq.
  - intros k Hk. by rewrite lookup_insert_ne.
Qed.

Lemma fs_write_other fs p offset chunk k :
  k <> path_str p -> fs_write fs p offset chunk !! k = fs !! k.
Proof.
  intros Hk. unfold fs_write. destruct (fs !! path_str p) as [[content|]|]; [|done..].
  by rewrite lookup_insert_ne.
Qed.

Lemma fs_write_file fs p offset chunk content :
  fs !! path_str p = Some (File content) ->
  exists content', fs_write fs p offset chunk !! path_str p = Some (File content').
Proof.
  intros Hk. unfold fs_write. rewrite Hk. eexists. apply lookup_insert_eq.
Qed.

Lemma fs_unlink_lookup fs p fs' :
  fs_unlink fs p = inr fs' ->
  fs' !! path_str p = None /\ forall k, k <> path_str p -> fs' !! k = fs !! k.
Proof.
  unfold fs_unlink. destruct (parts p); [done|].
  destruct (fs !! path_str p) as [[content|]|]; [|done..]. intros [= <-]. split.
  - apply lookup_delete_eq.
  - intros k Hk. by rewrite lookup_delete_ne.
Qed.

(** ** The phases of one download *)

Lemma strerror_nonempty e p : strerror e p <> "".
Proof. by destruct e. Qed.

Lemma preflight_error_nonempty size max_size_mb : preflight_error size max_size_mb <> "".
Proof. done. Qed.

Lemma stream_error_nonempty downloaded max_size_mb : stream_error downloaded max_size_mb <> "".
Proof. done. Qed.

Lemma startswith_append p s : startswith p s = true -> exists rest, s = p +:+ rest.
Proof.
  revert s. induction p as [|a p IH]; intros s; simpl.
  - intros _. by exists s.
  - destruct s as [|b s]; [done|]. intros [Hab Hp]%andb_prop.
    apply Ascii.eqb_eq in Hab as ->. destruct (IH s Hp) as [rest ->]. by exists rest.
Qed.

Lemma scheme_of_http_prefix url :
  startswith "http://" url = true -> url_scheme url = "http".
Proof. intros [rest ->]%startswith_append. reflexivity. Qed.

Lemma scheme_of_https_prefix url :
  startswith "https://" url = true -> url_scheme url = "https".
Proof. intros [rest ->]%startswith_append. reflexivity. Qed.

(** A URL whose scheme is neither [http] nor [https] fails the test of the
    first line of the [try] block. *)
Lemma other_scheme_no_prefix url :
  url_scheme url <> "http" -> url_scheme url <> "https" ->
  startswith "http://" url = false /\ startswith "https://" url = false.
Proof.
  intros Hhttp Hhttps. split.
  - destruct (startswith "http://" url) eqn:Hp; [|done].
    by apply scheme_of_http_prefix in Hp.
  - destruct (startswith "https://" url) eqn:Hp; [|done].
    by apply scheme_of_https_prefix in Hp.
Qed.

Section FetcherProperties.
Context {platform : Platform}.

Lemma start_invalid a e w :
  startswith "http://" (arg_url a) = false ->
  startswith "https://" (arg_url a) = false ->
  start a e w =
    (inl (failure (default "" (arg_filename a))
            "Invalid URL format. URL must start with http:// or https://"), w).
Proof. intros H1 H2. unfold start. by rewrite H1, H2. Qed.

Lemma start_inl a e w r w' :
  start a e w = (inl r, w') ->
  log w' = log w /\ exists fn text, r = failure fn text /\ text <> "".
Proof.
  unfold start. destruct (negb _).
  - intros [= <- <-]. split; [done|]. by eexists _, _.
  - destruct (mkdir_parents _ _) as [[[err p]|] fs1]; [|done].
    intros [= <- <-]. split; [done|]. eexists _, _. split; [done|].
    apply strerror_nonempty.
Qed.

Lemma start_inr a e w c w' :
  start a e w = (inr c, w') ->
  c_env c = e /\ c_url c = arg_url a /\ c_max_size_mb c = arg_max_size_mb a /\
  c_final_filename c = pathlib.name (c_file_path c) /\
  valid_path (c_file_path c) = true /\
  fs_exists (fs w') (c_file_path c) = false /\
  log w' = log w ++ [HEAD (arg_url a)].
Proof.
  unfold start. destruct (negb _); [done|].
  destruct (mkdir_parents _ _) as [[[err p]|] fs1]; [done|].
  intros [= <- <-]. simpl. repeat split.
  - apply unique_filepath_valid, valid_joinpath, valid_Path.
  - apply unique_filepath_free, valid_joinpath, valid_Path.
Qed.

Lemma start_preserves a e w k n :
  fs w !! k = Some n -> fs (start a e w).2 !! k = Some n.
Proof.
  intros Hk. unfold start. destruct (negb _); [done|].
  pose proof (mkdir_rec_preserves (root (Path (arg_output_dir a)))
                (rev (parts (Path (arg_output_dir a)))) (fs w) k n Hk) as Hmk.
  fold (mkdir_parents (fs w) (Path (arg_output_dir a))) in Hmk.
  by destruct (mkdir_parents _ _) as [[[err p]|] fs1].
Qed.

Lemma on_head_inr c w c' w' :
  on_head c w = (inr c', w') ->
  c' = c /\ fs w' = fs w /\ log w' = log w ++ [GET (c_url c)].
Proof.
  unfold on_head. destruct (env_head (c_env c)) as [[[] text]|[cl|]]; simpl;
    try (by intros [= <- <-]); try done.
  destruct (is_empty cl); [by intros [= <- <-]|].
  destruct (int_of_str cl) as [text|size]; [done|].
  destruct (_ <? size); [done|]. by intros [= <- <-].
Qed.

Lemma on_head_inl c w r w' :
  on_head c w = (inl r, w') ->
  w' = w /\
  exists text, r = failure (c_filename c) text /\
    (text <> "" \/ In text (env_texts (c_env c)) \/ exists s, int_of_str s = inl text).
Proof.
  unfold on_head, env_texts.
  destruct (env_head (c_env c)) as [[[] text]|[cl|]]; simpl; try done.
  - intros [= <- <-]. split; [done|]. exists text. split; [done|]. right. left. by left.
  - destruct (is_empty cl); [done|].
    destruct (int_of_str cl) as [text|size] eqn:Hint.
    + intros [= <- <-]. split; [done|]. exists text. split; [done|]. right. right. eauto.
    + destruct (_ <? size); [|done]. intros [= <- <-]. split; [done|].
      eexists. split; [done|]. left. apply preflight_error_nonempty.
Qed.

Lemma on_get_inr c w content_type w' :
  on_get c w = (inr content_type, w') ->
  (exists resp, env_get (c_env c) = GetResponse resp /\
     content_type = resp_content_type resp) /\
  parts (c_file_path c) <> [] /\
  fs w' !! path_str (c_file_path c) = Some (File []) /\
  (forall k, k <> path_str (c_file_path c) -> fs w' !! k = fs w !! k) /\
  log w' = log w.
Proof.
  unfold on_get. destruct (env_get (c_env c)) as [text|resp]; [done|].
  destruct (negb _); [done|].
  destruct (open_wb _ _) as [err|fs1] eqn:Hopen; [done|].
  intros [= <- <-]. apply open_wb_lookup in Hopen as (Hparts & Hfile & Hother).
  split; [by eexists|]. done.
Qed.

Lemma on_get_inl c w r w' :
  on_get c w = (inl r, w') ->
  w' = w /\
  exists text, r = failure (c_filename c) text /\
    (text <> "" \/ In text (env_texts (c_env c))).
Proof.
  unfold on_get, env_texts. destruct (env_get (c_env c)) as [text|resp].
  - intros [= <- <-]. split; [done|]. exists text. split; [done|]. right.
    apply in_or_app. right. by left.
  - destruct (negb _).
    + intros [= <- <-]. split; [done|]. eexists. split; [done|]. right.
      apply in_or_app. right. by left.
    + destruct (open_wb _ _) as [err|fs1]; [|done].
      intros [= <- <-]. split; [done|]. eexists. split; [done|]. left.
      apply strerror_nonempty.
Qed.

Lemma on_chunk_inr c written chunk w downloaded w' :
  on_chunk c written chunk w = (inr downloaded, w') ->
  downloaded = written + Z.of_nat (length chunk) /\
  downloaded <= max_size_bytes c /\
  fs w' = fs_write (fs w) (c_file_path c) written chunk /\ log w' = log w.
Proof.
  unfold on_chunk. destruct (_ <? _) eqn:Hlimit.
  - destruct (fs_exists _ _); [|done]. by destruct (fs_unlink _ _).
  - intros [= <- <-]. apply Z.ltb_ge in Hlimit. done.
Qed.

Lemma on_chunk_inl c written chunk w r w' :
  on_chunk c written chunk w = (inl r, w') ->
  max_size_bytes c < written + Z.of_nat (length chunk) /\
  log w' = log w /\
  (forall k, k <> path_str (c_file_path c) -> fs w' !! k = fs w !! k) /\
  exists text, r = failure (c_filename c) text /\ text <> "".
Proof.
  unfold on_chunk. destruct (_ <? _) eqn:Hlimit; [|done].
  apply Z.ltb_lt in Hlimit.
  destruct (fs_exists _ _).
  - destruct (fs_unlink _ _) as [err|fs1] eqn:Hunlink; intros [= <- <-].
    + repeat split; [done..|]. eexists. split; [done|]. apply strerror_nonempty.
    + apply fs_unlink_lookup in Hunlink as [_ Hother].
      repeat split; [done..|]. eexists. split; [done|]. apply stream_error_nonempty.
  - intros [= <- <-]. repeat split; [done..|]. eexists. split; [done|].
    apply stream_error_nonempty.
Qed.

Lemma on_end_world c content_type broken w : (on_end c content_type broken w).2 = w.
Proof.
  unfold on_end. destruct broken; [done|]. by destruct (negb _).
Qed.

Lemma on_end_cases c content_type broken w :
  let r := (on_end c content_type broken w).1 in
  (success r = true /\ error r = None /\ broken = None /\
   file_path r = path_str (c_file_path c) /\
   file_name r = c_final_filename c /\
   fs_exists (fs w) (c_file_path c) = true /\
   file_size r = st_size dir_size (fs w) (c_file_path c)) \/
  (exists text, r = failure (c_filename c) text /\
     (text <> "" \/ broken = Some text)).
Proof.
  unfold on_end. destruct broken as [text|]; simpl.
  - right. exists text. split; [done|]. by right.
  - destruct (fs_exists _ _) eqn:Hex; simpl.
    + left. done.
    + right. eexists. split; [done|]. by left.
Qed.

(** A step changes no node but the target of the coroutine; a coroutine that
    has not resolved its target yet can only add directories. *)
Lemma step_frame t w k n :
  task_target t <> Some k -> fs w !! k = Some n -> fs (step t w).2 !! k = Some n.
Proof.
  intros Htarget Hk. destruct t as [a e|c|c|c content_type written chunks broken|r]; simpl.
  - pose proof (start_preserves a e w k n Hk) as Hs.
    by destruct (start a e w) as [[r|c] w'].
  - destruct (on_head c w) as [[r|c'] w'] eqn:Hh; simpl.
    + by apply on_head_inl in Hh as [-> _].
    + apply on_head_inr in Hh as (_ & -> & _). done.
  - simpl in Htarget. destruct (on_get c w) as [[r|ct] w'] eqn:Hg; simpl.
    + by apply on_get_inl in Hg as [-> _].
    + apply on_get_inr in Hg as (_ & _ & _ & Hother & _).
      rewrite Hother; [done|]. congruence.
  - simpl in Htarget. destruct chunks as [|chunk chunks].
    + pose proof (on_end_world c content_type broken w) as Hw.
      destruct (on_end c content_type broken w) as [r w']. simpl in *. by subst.
    + destruct (on_chunk c written chunk w) as [[r|d] w'] eqn:Hc; simpl.
      * apply on_chunk_inl in Hc as (_ & _ & Hother & _).
        rewrite Hother; [done|]. congruence.
      * apply on_chunk_inr in Hc as (_ & _ & -> & _).
        rewrite fs_write_other; [done|]. congruence.
  - done.
Qed.

(** The loop over the chunks, for a coroutine that is the only writer of the
    file it has opened: it stops with the size error at the first chunk that
    takes the running total over the limit, and the file is gone; otherwise
    the file stays, and the result is the failure that breaks the stream or
    the success. *)
Lemma stream_cases c content_type written chunks broken w content :
  parts (c_file_path c) <> [] ->
  fs w !! path_str (c_file_path c) = Some (File content) ->
  exists r w', stream c content_type written chunks broken w = (r, w') /\
    log w' = log w /\
    (forall k, k <> path_str (c_file_path c) -> fs w' !! k = fs w !! k) /\
    match first_excess (max_size_bytes c) written chunks with
    | Some d =>
        r = failure (c_filename c) (stream_error d (c_max_size_mb c)) /\
        fs w' !! path_str (c_file_path c) = None
    | None =>
        (exists content', fs w' !! path_str (c_file_path c) = Some (File content') /\
           match broken with
           | Some text => r = failure (c_filename c) text
           | None =>
               r = {| file_path := path_str (c_file_path c);
                      file_name := c_final_filename c;
                      file_size := Z.of_nat (length content');
                      content_type := content_type;
                      success := true; error := None |}
           end)
    end.
Proof.
  intros Hparts. revert written w content.
  induction chunks as [|chunk chunks IH]; intros written w content Hfile; simpl.
  - exists (on_end c content_type broken w).1, w. split.
    { pose proof (on_end_world c content_type broken w) as Hw.
      destruct (on_end c content_type broken w); simpl in *. by subst. }
    split; [done|]. split; [done|]. exists content. split; [done|].
    unfold on_end. destruct broken as [text|]; [done|].
    rewrite fs_exists_lookup, Hfile by done.
    rewrite bool_decide_eq_true_2 by eauto. simpl.
    by rewrite (st_size_file _ _ _ content).
  - unfold on_chunk.
    destruct (max_size_bytes c <? written + Z.of_nat (length chunk)) eqn:Hlimit.
    + rewrite fs_exists_lookup, Hfile by done.
      rewrite bool_decide_eq_true_2 by eauto.
      unfold fs_unlink. rewrite Hfile. destruct (parts (c_file_path c)); [done|].
      eexists _, _. split; [done|]. simpl. split; [done|]. split.
      * intros k Hk. by rewrite lookup_delete_ne.
      * split; [done|]. apply lookup_delete_eq.
    + destruct (fs_write_file (fs w) (c_file_path c) written chunk content Hfile)
        as [content1 Hfile1].
      set (w1 := {| fs := fs_write (fs w) (c_file_path c) written chunk; log := log w |}).
      destruct (IH (written + Z.of_nat (length chunk)) w1 content1 Hfile1)
        as (r & w' & Hstream & Hlog & Hother & Hcases).
      exists r, w'. split; [done|]. split; [done|]. split; [|done].
      intros k Hk. rewrite Hother by done. by apply fs_write_other.
Qed.

(** From the answer to the [GET] request on. *)
Lemma finish_get_cases c w :
  c_final_filename c = pathlib.name (c_file_path c) ->
  exists r w', finish_get c w = (r, w') /\
    log w' = log w /\
    (forall k, k <> path_str (c_file_path c) -> fs w' !! k = fs w !! k) /\
    (failed_by (c_env c) r \/ succeeded_at (fs w') (c_file_path c) r).
Proof.
  intros Hname. unfold finish_get.
  destruct (on_get c w) as [[r|content_type] w1] eqn:Hget.
  - apply on_get_inl in Hget as (-> & text & -> & Htext).
    exists (failure (c_filename c) text), w. split; [done|]. split; [done|]. split; [done|].
    left. exists (c_filename c), text. split; [done|]. tauto.
  - apply on_get_inr in Hget as ((resp & Hresp & ->) & Hparts & Hfile & Hother & Hlog).
    rewrite Hresp.
    destruct (stream_cases c (resp_content_type resp) 0 (body resp) (broken resp) w1 []
                Hparts Hfile) as (r & w' & Hstream & Hlog' & Hother' & Hcases).
    exists r, w'. split; [done|]. split; [congruence|]. split.
    { intros k Hk. rewrite Hother' by done. by apply Hother. }
    destruct (first_excess _ _ _) as [d|].
    + destruct Hcases as [-> _]. left. eexists _, _. split; [done|]. left.
      apply stream_error_nonempty.
    + destruct Hcases as (content' & Hfile' & Hr).
      destruct (broken resp) as [text|] eqn:Hbroken.
      * subst r. left. eexists _, _. split; [done|]. right. left.
        unfold env_texts. rewrite Hresp, Hbroken. apply in_or_app. right. simpl. tauto.
      * subst r. right. unfold succeeded_at. simpl.
        repeat split; try done. by exists content'.
Qed.

(** From the answer to the [HEAD] request on. *)
Lemma finish_head_cases c w :
  c_final_filename c = pathlib.name (c_file_path c) ->
  exists r w', finish_head c w = (r, w') /\
    (forall k, k <> path_str (c_file_path c) -> fs w' !! k = fs w !! k) /\
    (failed_by (c_env c) r \/ succeeded_at (fs w') (c_file_path c) r).
Proof.
  intros Hname. unfold finish_head.
  destruct (on_head c w) as [[r|c'] w1] eqn:Hhead.
  - apply on_head_inl in Hhead as (-> & text & -> & Htext).
    eexists _, _. split; [done|]. split; [done|]. left. by eexists _, _.
  - apply on_head_inr in Hhead as (-> & Hfs & Hlog).
    destruct (finish_get_cases c w1 Hname) as (r & w' & Hfin & _ & Hother & Hcases).
    exists r, w'. split; [done|]. split; [|done].
    intros k Hk. rewrite Hother by done. by rewrite Hfs.
Qed.

(** A whole download: it fails, or it succeeds at the path it was resolved
    to, which was free; either way no other node is lost or changed. *)
Lemma run_cases a e w :
  let fs1 := (mkdir_parents (fs w) (Path (arg_output_dir a))).2 in
  let q := resolved_path a w in
  exists r w', finish (Start a e) w = (r, w') /\
    (forall k n, k <> path_str q -> fs w !! k = Some n -> fs w' !! k = Some n) /\
    (failed_by e r \/
     (succeeded_at (fs w') q r /\ valid_path q = true /\ fs_exists fs1 q = false /\
      forall k, k <> path_str q -> fs w' !! k = fs1 !! k)).
Proof.
  intros fs1 q. simpl.
  destruct (start a e w) as [[r|c] w1] eqn:Hstart.
  - exists r, w1. split; [done|]. split.
    + intros k n _ Hk. pose proof (start_preserves a e w k n Hk) as Hp.
      by rewrite Hstart in Hp.
    + left. apply start_inl in Hstart as (_ & fn & text & -> & Htext).
      exists fn, text. split; [done|]. by left.
  - pose proof Hstart as Hc.
    apply start_inr in Hc as (Henv & _ & _ & Hname & Hvalid & Hfree & _).
    assert (c_file_path c = q /\ fs w1 = fs1) as [Hq Hfs].
    { unfold start in Hstart. destruct (negb _); [done|].
      unfold q, resolved_path, fs1.
      destruct (mkdir_parents _ _) as [[[err p]|] fs2]; [done|].
      by injection Hstart as <- <-. }
    destruct (finish_head_cases c w1 Hname) as (r & w' & Hfin & Hother & Hcases).
    rewrite Hq, Hfs, Henv in *.
    exists r, w'. split; [done|]. split.
    + intros k n Hk Hlook. rewrite Hother by done.
      by apply mkdir_rec_preserves.
    + destruct Hcases as [Hfail|Hsucc]; [by left|right]. done.
Qed.


(** C8. A download of a URL that does not start with [http://] or [https://]
    (which is the case of every URL whose scheme is something else, see
    [other_scheme_no_prefix]) returns at once the failure with the text about
    the URL format, and leaves the world as it was: no request is sent, the
    log of requests is unchanged, and nothing is created on disk. The
    coroutine returns in its first step, before any suspension point. *)
Theorem invalid_url_fails_fast (url output_dir : string) (filename : option string)
    (timeout max_size_mb : Z) (e : env) (w : world) :
  startswith "http://" url = false ->
  startswith "https://" url = false ->
  let a := {| arg_url := url; arg_output_dir := output_dir; arg_filename := filename;
              arg_timeout := timeout; arg_max_size_mb := max_size_mb |} in
  let r := failure (default "" filename)
             "Invalid URL format. URL must start with http:// or https://" in
  _download_single_file_internal url output_dir filename timeout max_size_mb e w = (r, w) /\
  step (Start a e) w = (Done r, w) /\
  success r = false.
Proof.
  intros H1 H2 a r. unfold _download_single_file_internal. fold a.
  pose proof (start_invalid a e w H1 H2) as Hs.
  simpl. rewrite Hs. done.
Qed.

End FetcherProperties.

Section BatchProperties.
Context {platform : Platform}.

Lemma stream_returns c content_type downloaded chunks broken w :
  returns (Streaming c content_type downloaded chunks broken)
          (stream c content_type downloaded chunks broken w).1.
Proof.
  revert downloaded w.
  induction chunks as [|chunk chunks IH]; intros downloaded w; simpl.
  - apply returns_step with (w := w). simpl.
    destruct (on_end c content_type broken w) as [r w']. simpl. constructor.
  - apply returns_step with (w := w). simpl.
    destruct (on_chunk c downloaded chunk w) as [[r|d'] w']; simpl.
    + constructor.
    + apply IH.
Qed.

Lemma finish_get_returns c w : returns (AwaitGet c) (finish_get c w).1.
Proof.
  apply returns_step with (w := w). unfold finish_get. simpl.
  destruct (on_get c w) as [[r|content_type] w'] eqn:Hget; simpl.
  - constructor.
  - unfold stream_of. destruct (env_get (c_env c)) as [text|resp].
    + apply (stream_returns c content_type 0 [] None w').
    + apply stream_returns.
Qed.

Lemma finish_head_returns c w : returns (AwaitHead c) (finish_head c w).1.
Proof.
  apply returns_step with (w := w). unfold finish_head. simpl.
  destruct (on_head c w) as [[r|c'] w']; simpl.
  - constructor.
  - apply finish_get_returns.
Qed.

Lemma finish_returns t w : returns t (finish t w).1.
Proof.
  destruct t as [a e|c|c|c content_type downloaded chunks broken|r]; simpl.
  - apply returns_step with (w := w). simpl.
    destruct (start a e w) as [[r|c] w']; simpl.
    + constructor.
    + apply finish_head_returns.
  - apply finish_head_returns.
  - apply finish_get_returns.
  - apply stream_returns.
  - constructor.
Qed.

(** Resuming one coroutine keeps the number of coroutines, leaves every
    other coroutine as it is, and moves the resumed one a step on. *)
Lemma step_at_lookup i ts w j t' :
  (step_at i ts w).1 !! j = Some t' ->
  exists t, ts !! j = Some t /\ forall r, returns t' r -> returns t r.
Proof.
  unfold step_at. destruct (ts !! i) as [t|] eqn:Hi.
  - destruct (step t w) as [t1 w1] eqn:Hstep. simpl.
    destruct (decide (i = j)) as [->|Hne].
    + rewrite list_lookup_insert_eq by (by eapply lookup_lt_Some).
      intros [= <-]. exists t. split; [done|].
      intros r Hr. apply returns_step with (w := w). by rewrite Hstep.
    + rewrite list_lookup_insert_ne by done. intros Hj. by exists t'.
  - simpl. intros Hj. by exists t'.
Qed.

Lemma step_at_length i ts w : length (step_at i ts w).1 = length ts.
Proof.
  unfold step_at. destruct (ts !! i); [|done].
  destruct (step _ w). simpl. apply length_insert.
Qed.

Lemma interleave_length sched ts w : length (interleave sched ts w).1 = length ts.
Proof.
  revert ts w. induction sched as [|i sched IH]; intros ts w; simpl; [done|].
  pose proof (step_at_length i ts w) as Hlen.
  destruct (step_at i ts w) as [ts' w']. simpl in Hlen. by rewrite IH.
Qed.

Lemma interleave_lookup sched ts w j t' :
  (interleave sched ts w).1 !! j = Some t' ->
  exists t, ts !! j = Some t /\ forall r, returns t' r -> returns t r.
Proof.
  revert ts w. induction sched as [|i sched IH]; intros ts w; simpl.
  - intros Hj. by exists t'.
  - pose proof (step_at_lookup i ts w j) as Hstep.
    destruct (step_at i ts w) as [ts' w']. simpl in Hstep.
    intros Hj. destruct (IH _ _ Hj) as (t1 & Ht1 & Hr1).
    destruct (Hstep _ Ht1) as (t & Ht & Hr). exists t. split; [done|]. auto.
Qed.

Lemma finish_all_length ts w : length (finish_all ts w).1 = length ts.
Proof.
  revert w. induction ts as [|t ts IH]; intros w; simpl; [done|].
  destruct (finish t w) as [r w1]. specialize (IH w1).
  destruct (finish_all ts w1) as [rs w2]. simpl in *. by rewrite IH.
Qed.

Lemma finish_all_lookup ts w j t :
  ts !! j = Some t ->
  exists r, (finish_all ts w).1 !! j = Some r /\ returns t r.
Proof.
  revert w j. induction ts as [|t0 ts IH]; intros w j; simpl; [done|].
  pose proof (finish_returns t0 w) as Hret.
  destruct (finish t0 w) as [r0 w1]. specialize (IH w1).
  destruct (finish_all ts w1) as [rs w2]. simpl in *.
  destruct j as [|j]; simpl.
  - intros [= ->]. by exists r0.
  - apply IH.
Qed.

Lemma gather_length sched ts w : length (gather sched ts w).1 = length ts.
Proof.
  unfold gather. pose proof (interleave_length sched ts w) as Hlen.
  destruct (interleave sched ts w) as [ts' w']. simpl in Hlen.
  by rewrite finish_all_length.
Qed.

Lemma gather_lookup sched ts w j t :
  ts !! j = Some t ->
  exists r, (gather sched ts w).1 !! j = Some r /\ returns t r.
Proof.
  intros Hj. unfold gather.
  pose proof (interleave_length sched ts w) as Hlen.
  pose proof (interleave_lookup sched ts w j) as Hlook.
  destruct (interleave sched ts w) as [ts' w']. simpl in *.
  destruct (ts' !! j) as [t'|] eqn:Hj'.
  - destruct (Hlook _ eq_refl) as (t0 & Ht0 & Hr). simplify_eq.
    destruct (finish_all_lookup ts' w' j t' Hj') as (r & Hr1 & Hr2).
    exists r. auto.
  - apply lookup_ge_None in Hj'. apply lookup_lt_Some in Hj. lia.
Qed.

Lemma filter_length_le {A} (f : A -> bool) (l : list A) :
  (length (List.filter f l) <= length l)%nat.
Proof. induction l as [|x l IH]; simpl; [lia|]. destruct (f x); simpl; lia. Qed.

(** C1. For every list of URLs, whatever the network answers and in whatever
    order the event loop resumes the coroutines: [download_files] returns as
    many results as there are URLs; the result at position [i] is one the
    download of [urls[i]] over [net i] returns; [success_count] is the number
    of results whose [success] is true; both counts are non-negative and add
    up to the number of URLs; and for no URL at all the response is the empty
    list with both counts zero, the world unchanged. *)
Theorem download_files_response (urls : list string) (output_dir : option string)
    (timeout max_size_mb : Z) (net : nat -> env) (sched : list nat) (w : world) :
  let resp := (download_files urls output_dir timeout max_size_mb net sched w).1 in
  length (results resp) = length urls /\
  (forall i url, urls !! i = Some url ->
     exists r, results resp !! i = Some r /\
       returns (Start (batch_args url (default (path_str DEFAULT_DOWNLOAD_DIR) output_dir)
                         timeout max_size_mb) (net i)) r) /\
  success_count resp =
    Z.of_nat (length (List.filter (fun r => success r) (results resp))) /\
  success_count resp + failed_count resp = Z.of_nat (length urls) /\
  0 <= success_count resp /\ 0 <= failed_count resp /\
  download_files [] output_dir timeout max_size_mb net sched w =
    ({| results := []; success_count := 0; failed_count := 0 |}, w).
Proof.
  cbv zeta. unfold download_files.
  set (dir := default (path_str DEFAULT_DOWNLOAD_DIR) output_dir).
  set (tasks := imap _ urls).
  pose proof (gather_length sched tasks w) as Hlen.
  pose proof (gather_lookup sched tasks w) as Hlook.
  destruct (gather sched tasks w) as [rs w'] eqn:Hg. simpl in *.
  assert (length tasks = length urls) as Htasks by apply length_imap.
  pose proof (filter_length_le success rs) as Hle.
  repeat split.
  - congruence.
  - intros i url Hi. apply (Hlook i).
    unfold tasks. rewrite list_lookup_imap, Hi. reflexivity.
  - lia.
  - lia.
  - lia.
  - clear. unfold gather. by induction sched as [|i sched IH]; simpl.
Qed.

End BatchProperties.

Section EngineProperties.
Context {platform : Platform}.

Lemma failure_well_shaped filename text : well_shaped (failure filename text).
Proof. right. unfold failure_shape. simpl. eauto. Qed.

Lemma step_good t w : good_task t -> good_task (step t w).1.
Proof.
  destruct t as [a e|c|c|c content_type written chunks broken|r]; simpl; intros Hgood.
  - destruct (start a e w) as [[r|c] w'] eqn:Hs; simpl.
    + apply start_inl in Hs as (_ & fn & text & -> & _). apply failure_well_shaped.
    + by apply start_inr in Hs as (_ & _ & _ & _ & Hvalid & _).
  - destruct (on_head c w) as [[r|c'] w'] eqn:Hh; simpl.
    + apply on_head_inl in Hh as (_ & text & -> & _). apply failure_well_shaped.
    + by apply on_head_inr in Hh as (-> & _).
  - destruct (on_get c w) as [[r|ct] w'] eqn:Hg; simpl.
    + apply on_get_inl in Hg as (_ & text & -> & _). apply failure_well_shaped.
    + unfold stream_of. by destruct (env_get (c_env c)).
  - destruct chunks as [|chunk chunks].
    + pose proof (on_end_cases c content_type broken w) as Hend.
      destruct (on_end c content_type broken w) as [r w']. simpl in *.
      destruct Hend as [(Hs & He & _ & Hp & _)|(text & -> & _)].
      * left. rewrite Hp. split; [done|]. split; [|done]. by apply path_str_nonempty.
      * apply failure_well_shaped.
    + destruct (on_chunk c written chunk w) as [[r|d] w'] eqn:Hc; simpl.
      * apply on_chunk_inl in Hc as (_ & _ & _ & text & -> & _). apply failure_well_shaped.
      * done.
  - done.
Qed.

Lemma returns_well_shaped t r : returns t r -> good_task t -> well_shaped r.
Proof.
  induction 1 as [r|t w r Hret IH]; intros Hgood; [done|].
  by apply IH, step_good.
Qed.

(** Every result of a batch has one of the two shapes. *)
Lemma batch_results_well_shaped urls output_dir timeout max_size_mb net sched w :
  Forall well_shaped
    (results (download_files urls output_dir timeout max_size_mb net sched w).1).
Proof.
  unfold download_files.
  set (tasks := imap _ urls).
  pose proof (gather_length sched tasks w) as Hlen.
  pose proof (gather_lookup sched tasks w) as Hlook.
  destruct (gather sched tasks w) as [rs w'] eqn:Hg. simpl in *.
  apply Forall_lookup. intros i r Hi.
  assert (is_Some (tasks !! i)) as [t Ht].
  { apply lookup_lt_is_Some. rewrite <- Hlen. by eapply lookup_lt_Some. }
  destruct (Hlook i t Ht) as (r' & Hi' & Hret). simplify_eq.
  apply (returns_well_shaped t); [done|].
  unfold tasks in Ht. rewrite list_lookup_imap in Ht.
  destruct (urls !! i); by simplify_eq/=.
Qed.

Lemma succeeded_shape fs q r :
  valid_path q = true -> succeeded_at fs q r -> success_shape fs r.
Proof.
  intros Hq (Hs & He & Hp & _ & content & Hfile & Hsize). unfold success_shape.
  rewrite Hp. repeat split; [done|by apply path_str_nonempty|done|].
  by exists content.
Qed.

Lemma failed_by_shape e r :
  failed_by e r ->
  success r = false /\ file_path r = "" /\ file_size r = 0 /\
  exists text, error r = Some text /\
    (text <> "" \/ In text (env_texts e) \/ exists s, int_of_str s = inl text).
Proof. intros (fn & text & -> & Htext). simpl. eauto 10. Qed.

(** The step in which a coroutine returns a success reports the size the
    file system gives for its path at that moment. *)
Lemma step_success_size t w r w' :
  step t w = (Done r, w') -> (forall r0, t <> Done r0) -> success r = true ->
  exists q, file_path r = path_str q /\ fs_exists (fs w') q = true /\
    file_size r = st_size dir_size (fs w') q.
Proof.
  destruct t as [a e|c|c|c content_type written chunks broken|r0]; simpl.
  - destruct (start a e w) as [[r1|c] w1] eqn:Hs; [|done].
    intros [= <- <-] _ Hsucc. apply start_inl in Hs as (_ & fn & text & -> & _). done.
  - destruct (on_head c w) as [[r1|c'] w1] eqn:Hh; [|done].
    intros [= <- <-] _ Hsucc. apply on_head_inl in Hh as (_ & text & -> & _). done.
  - destruct (on_get c w) as [[r1|ct] w1] eqn:Hg.
    + intros [= <- <-] _ Hsucc. apply on_get_inl in Hg as (_ & text & -> & _). done.
    + unfold stream_of. by destruct (env_get (c_env c)).
  - destruct chunks as [|chunk chunks].
    + pose proof (on_end_cases c content_type broken w) as Hend.
      pose proof (on_end_world c content_type broken w) as Hw.
      destruct (on_end c content_type broken w) as [r1 w1]. simpl in *.
      intros [= <- <-] _ Hsucc. subst w1.
      destruct Hend as [(_ & _ & _ & Hp & _ & Hex & Hsize)|(text & -> & _)]; [|done].
      by exists (c_file_path c).
    + destruct (on_chunk c written chunk w) as [[r1|d] w1] eqn:Hc; [|done].
      intros [= <- <-] _ Hsucc.
      apply on_chunk_inl in Hc as (_ & _ & _ & text & -> & _). done.
  - intros _ Hne. by destruct (Hne r0).
Qed.

(** C9. A single download returns a result of exactly one of two shapes: a
    success with a path that is not empty, no error, and as size the number
    of bytes of the file the file system holds at that path when the call
    returns; or a failure with an error text, the empty path and size zero.
    Every result of a batch, under every schedule, is a success with a path
    and no error or a failure of that shape as well, and the step in which a
    coroutine of the batch returns a success reports the size the file system
    gives for its path at that moment. *)
Theorem result_consistent (url output_dir : string) (filename : option string)
    (timeout max_size_mb : Z) (e : env) (w : world) (urls : list string)
    (batch_dir : option string) (net : nat -> env) (sched : list nat) :
  (let '(r, w') :=
     _download_single_file_internal url output_dir filename timeout max_size_mb e w in
   (success_shape (fs w') r \/ failure_shape r) /\
   ~ (success_shape (fs w') r /\ failure_shape r)) /\
  Forall well_shaped
    (results (download_files urls batch_dir timeout max_size_mb net sched w).1) /\
  (forall t w0 r w', step t w0 = (Done r, w') -> (forall r0, t <> Done r0) ->
     success r = true ->
     exists q, file_path r = path_str q /\ fs_exists (fs w') q = true /\
       file_size r = st_size dir_size (fs w') q).
Proof.
  split; [|split; [apply batch_results_well_shaped|apply step_success_size]].
  unfold _download_single_file_internal.
  set (a := {| arg_url := url |}).
  destruct (run_cases a e w) as (r & w' & -> & _ & Hcases).
  split.
  - destruct Hcases as [Hfail|(Hsucc & Hvalid & _)].
    + right. apply failed_by_shape in Hfail as (? & ? & ? & text & ? & _).
      unfold failure_shape. eauto.
    + left. by eapply succeeded_shape.
  - intros [(Hs & _) (Hf & _)]. congruence.
Qed.

(** The step of one coroutine leaves the other coroutines as they are. *)
Lemma step_at_others i ts w j : j <> i -> (step_at i ts w).1 !! j = ts !! j.
Proof.
  intros Hne. unfold step_at. destruct (ts !! i) as [t|]; [|done].
  destruct (step t w) as [t' w']. simpl. by rewrite list_lookup_insert_ne.
Qed.

Lemma step_at_frame i ts w t k n :
  ts !! i = Some t -> task_target t <> Some k ->
  fs w !! k = Some n -> fs (step_at i ts w).2 !! k = Some n.
Proof.
  intros Hi Htarget Hk. unfold step_at. rewrite Hi.
  pose proof (step_frame t w k n Htarget Hk) as Hf.
  by destruct (step t w) as [t' w'].
Qed.

(** C2, as amended. A single download always returns a result, and when it
    reports a failure the error field holds a text, the path is empty and the
    size is zero. The text is not empty when the engine raises the error
    itself; otherwise it is the text of an exception of the HTTP client or of
    [int], whatever that is. In a batch, under every schedule, every URL gets
    its result, each of one of the two shapes; the step of one download, also
    one that fails, leaves the other coroutines as they are, and loses or
    changes no node of the file system other than its own target. *)
Theorem failure_is_reported (url output_dir : string) (filename : option string)
    (timeout max_size_mb : Z) (e : env) (w : world) (urls : list string)
    (batch_dir : option string) (net : nat -> env) (sched : list nat)
    (i : nat) (ts : list task) :
  (let r := (_download_single_file_internal url output_dir filename timeout
               max_size_mb e w).1 in
   success r = true \/
   (success r = false /\ file_path r = "" /\ file_size r = 0 /\
    exists text, error r = Some text /\
      (text <> "" \/ In text (env_texts e) \/ exists s, int_of_str s = inl text))) /\
  (let resp := (download_files urls batch_dir timeout max_size_mb net sched w).1 in
   length (results resp) = length urls /\ Forall well_shaped (results resp)) /\
  (forall j, j <> i -> (step_at i ts w).1 !! j = ts !! j) /\
  (forall t k n, ts !! i = Some t -> task_target t <> Some k ->
     fs w !! k = Some n -> fs (step_at i ts w).2 !! k = Some n).
Proof.
  split; [|split; [|split]].
  - unfold _download_single_file_internal.
    set (a := {| arg_url := url |}).
    destruct (run_cases a e w) as (r & w' & -> & _ & [Hfail|(Hsucc & _)]); simpl.
    + right. by apply failed_by_shape.
    + left. by destruct Hsucc.
  - split; [|apply batch_results_well_shaped].
    unfold download_files. set (tasks := imap _ urls).
    pose proof (gather_length sched tasks w) as Hlen.
    destruct (gather sched tasks w) as [rs w']. simpl in *.
    rewrite Hlen. apply length_imap.
  - intros j Hj. by apply step_at_others.
  - intros t k n. apply step_at_frame.
Qed.

(** C2, as stated, fails: a download whose [GET] request times out returns a
    failure with the empty text, which is the text of the client's timeout
    exception. *)
Lemma timeout_error_text_empty :
  let r := (_download_single_file_internal (platform := reference_platform) example_url
              "/tmp/t" None 60 500 times_out empty_world).1 in
  success r = false /\ error r = Some "" /\
  ~ (exists text, error r = Some text /\ text <> "").
Proof.
  vm_compute. split; [done|]. split; [done|]. intros (text & [= <-] & Htext). done.
Qed.

Lemma start_inr_ctx a e w c w' :
  start a e w = (inr c, w') ->
  c_filename c = resolve_filename (arg_url a) (arg_filename a) /\
  c_file_path c = resolved_path a w /\
  fs w' = (mkdir_parents (fs w) (Path (arg_output_dir a))).2.
Proof.
  unfold start, resolved_path. destruct (negb _); [done|].
  destruct (mkdir_parents _ _) as [[[err p]|] fs1]; [done|].
  by intros [= <- <-].
Qed.

Lemma first_excess_gt limit written chunks d :
  first_excess limit written chunks = Some d -> limit < d.
Proof.
  revert written. induction chunks as [|chunk chunks IH]; intros written; simpl; [done|].
  destruct (_ <? _) eqn:Hlimit; [|by apply IH].
  intros [= <-]. by apply Z.ltb_lt.
Qed.

(** ** The probe *)

(** An exception of the probe that is not an [HTTPStatusError] ends the
    download: no [GET] request is sent. *)
Lemma probe_exception_aborts c w text :
  env_head (c_env c) = HeadRaises (Raise OtherException text) ->
  finish_head c w = (failure (c_filename c) text, w).
Proof. intros Hhead. unfold finish_head, on_head. by rewrite Hhead. Qed.

(** The one exception the inner [except] clause lets pass. *)
Lemma probe_status_error_passes c w text :
  env_head (c_env c) = HeadRaises (Raise HTTPStatusError text) ->
  on_head c w = (inr c, {| fs := fs w; log := log w ++ [GET (c_url c)] |}).
Proof. intros Hhead. unfold on_head. by rewrite Hhead. Qed.

(** A [Content-Length] over the limit ends the download with the size error
    before the [GET] request: the world is as the probe left it. *)
Lemma preflight_rejects c w content_length size :
  env_head (c_env c) = HeadResponse (Some content_length) ->
  is_empty content_length = false ->
  int_of_str content_length = inr size ->
  max_size_bytes c < size ->
  finish_head c w =
    (failure (c_filename c) (preflight_error size (c_max_size_mb c)), w).
Proof.
  intros Hhead Hne Hint Hsize. unfold finish_head, on_head.
  rewrite Hhead, Hne, Hint. apply Z.ltb_lt in Hsize. by rewrite Hsize.
Qed.

(** ** The size limit while streaming *)

(** C3, as amended. A download that has passed the probe and whose [GET]
    request is answered and streamed, and whose running total comes to [d]
    bytes at the first chunk that takes it over the limit, returns the
    failure with the size error for [d]: the text gives [d] in MB to two
    decimals, and the limit. The file that was being written is deleted: no
    node is left at the resolved path. *)
Theorem size_limit_aborts (url output_dir : string) (filename : option string)
    (timeout max_size_mb : Z) (e : env) (w : world) (c : ctx) (w1 w2 w3 : world)
    (ct : option string) (resp : response) (d : Z) :
  let a := {| arg_url := url; arg_output_dir := output_dir; arg_filename := filename;
              arg_timeout := timeout; arg_max_size_mb := max_size_mb |} in
  start a e w = (inr c, w1) ->
  on_head c w1 = (inr c, w2) ->
  on_get c w2 = (inr ct, w3) ->
  env_get e = GetResponse resp ->
  first_excess (max_size_mb * 1024 * 1024) 0 (body resp) = Some d ->
  exists w',
    _download_single_file_internal url output_dir filename timeout max_size_mb e w =
      (failure (resolve_filename url filename) (stream_error d max_size_mb), w') /\
    fs_exists (fs w') (resolved_path a w) = false /\
    fs w' !! path_str (resolved_path a w) = None /\
    max_size_mb * 1024 * 1024 < d /\
    stream_error d max_size_mb =
      "File exceeded size limit during download (" +:+ size_mb d +:+ " MB > " +:+
      str_of_int max_size_mb +:+ " MB)".
Proof.
  intros a Hstart Hhead Hget Hresp Hexcess.
  pose proof (start_inr _ _ _ _ _ Hstart) as (Henv & _ & Hmax & _ & Hvalid & _).
  pose proof (start_inr_ctx _ _ _ _ _ Hstart) as (Hfn & Hpath & _).
  pose proof (on_get_inr _ _ _ _ Hget) as ((resp' & Hresp' & ->) & Hparts & Hfile & _).
  rewrite Henv, Hresp in Hresp'. injection Hresp' as <-.
  destruct (stream_cases c (resp_content_type resp) 0 (body resp) (broken resp) w3 []
              Hparts Hfile) as (r & w' & Hstream & _ & _ & Hcases).
  unfold max_size_bytes in Hcases. rewrite Hmax in Hcases. simpl in Hcases.
  rewrite Hexcess in Hcases. destruct Hcases as [-> Hgone].
  exists w'. unfold _download_single_file_internal. fold a. simpl.
  rewrite Hstart. unfold finish_head. rewrite Hhead. unfold finish_get.
  rewrite Hget, Henv, Hresp, Hstream, Hfn. simpl.
  rewrite <- Hpath. split; [done|]. split.
  - rewrite fs_exists_lookup, Hgone by done. apply bool_decide_eq_false_2. by intros [].
  - split; [done|]. split; [by eapply first_excess_gt|done].
Qed.

(** ** Collisions *)



Lemma failed_by_not_success e r : failed_by e r -> success r = true -> False.
Proof. by intros (fn & text & -> & _). Qed.



(** ** The probe that fails *)

(** C4, the second half, at one input: the probe cannot connect, the [GET]
    request would be answered with a body well under the limit. The download
    fails with the text of the probe's exception and sends no [GET] request;
    with a probe that answers, the same download succeeds. *)
Lemma probe_failure_fails_download :
  let '(r, w') :=
    _download_single_file_internal (platform := reference_platform) example_url "/tmp/t"
      None 60 500 probe_fails empty_world in
  success r = false /\ error r = Some "All connection attempts failed" /\
  log w' = [HEAD example_url] /\
  success (_download_single_file_internal (platform := reference_platform) example_url
             "/tmp/t" None 60 500 (serves 40) empty_world).1 = true.
Proof. vm_compute. done. Qed.

End EngineProperties.

(** ** The name derived from a URL *)

Section ResolverProperties.
Context {platform : Platform}.

Lemma with_default_ext_no_dot filename :
  contains_char "." filename = false -> with_default_ext filename = filename +:+ ".bin".
Proof. intros Hdot. unfold with_default_ext. by rewrite Hdot. Qed.

Lemma with_default_ext_dot filename :
  contains_char "." filename = true -> with_default_ext filename = filename.
Proof. intros Hdot. unfold with_default_ext. by rewrite Hdot. Qed.

Lemma is_empty_true s : is_empty s = true <-> s = "".
Proof. by destruct s. Qed.

Lemma is_empty_false s : is_empty s = false <-> s <> "".
Proof. by destruct s. Qed.

(** The name for a value found in the query, or for the path component. *)
Lemma extract_of_raw url filename :
  raw_filename url = Some filename ->
  _extract_filename_from_url url =
    _sanitize_filename
      (with_default_ext (if is_empty filename then placeholder else filename)).
Proof. intros Hraw. unfold _extract_filename_from_url. by rewrite Hraw. Qed.

Lemma extract_of_error url :
  raw_filename url = None -> _extract_filename_from_url url = "downloaded_file.bin".
Proof. intros Hraw. unfold _extract_filename_from_url. by rewrite Hraw. Qed.

(** C7. The name derived from a URL. When [urlparse] raises, it is the
    placeholder with the extension [.bin]. Otherwise, with [decoded] the last
    component of the path, percent-decoded: when [decoded] is not empty the
    name comes from it; when it is empty the name comes from the first value
    of the first of the query parameters [file], [filename], [name] that is
    present, and when none is present, or [parse_qs] raises, or the list of
    values is empty, it is the placeholder with the extension [.bin]. A name
    that comes from [decoded] or from a parameter gets [.bin] appended when
    it holds no dot, and is sanitized. The function is total: every case
    returns a name. *)
Theorem extract_filename_spec (url : string) :
  let from_name (n : string) :=
    _sanitize_filename (with_default_ext (if is_empty n then placeholder else n)) in
  let from_values (values : list string) :=
    match values with
    | v :: _ => from_name v
    | [] => "downloaded_file.bin"
    end in
  (urlparse url = None -> _extract_filename_from_url url = "downloaded_file.bin") /\
  (forall path query, urlparse url = Some (path, query) ->
     let decoded := unquote (pathlib.name (Path path)) in
     (decoded <> "" ->
      _extract_filename_from_url url = _sanitize_filename (with_default_ext decoded)) /\
     (decoded = "" -> parse_qs query = None ->
      _extract_filename_from_url url = "downloaded_file.bin") /\
     (decoded = "" -> forall query_params, parse_qs query = Some query_params ->
        (forall values, query_params !! "file" = Some values ->
           _extract_filename_from_url url = from_values values) /\
        (query_params !! "file" = None ->
         forall values, query_params !! "filename" = Some values ->
           _extract_filename_from_url url = from_values values) /\
        (query_params !! "file" = None -> query_params !! "filename" = None ->
         forall values, query_params !! "name" = Some values ->
           _extract_filename_from_url url = from_values values) /\
        (query_params !! "file" = None -> query_params !! "filename" = None ->
         query_params !! "name" = None ->
         _extract_filename_from_url url = "downloaded_file.bin"))) /\
  from_name "" = "downloaded_file.bin" /\
  (forall n, contains_char "." n = false -> with_default_ext n = n +:+ ".bin") /\
  (forall n, contains_char "." n = true -> with_default_ext n = n).
Proof.
  intros from_name from_values. split; [|split; [|split; [|split]]].
  - intros Hparse. apply extract_of_error. unfold raw_filename. by rewrite Hparse.
  - intros path query Hparse decoded. split; [|split].
    + intros Hdec%is_empty_false.
      rewrite (extract_of_raw url decoded).
      * fold decoded. by rewrite Hdec.
      * unfold raw_filename. rewrite Hparse. simpl. fold decoded. by rewrite Hdec.
    + intros Hdec Hqs. apply extract_of_error. unfold raw_filename.
      rewrite Hparse. simpl. fold decoded. by rewrite Hdec, Hqs.
    + intros Hdec query_params Hqs.
      assert (raw_filename url =
                first_param query_params ["file"; "filename"; "name"] "") as Hraw.
      { unfold raw_filename. rewrite Hparse. simpl. fold decoded.
        by rewrite Hdec, Hqs. }
      assert (forall values filename,
                match values with v :: _ => Some v | [] => None end = filename ->
                raw_filename url = filename ->
                _extract_filename_from_url url = from_values values) as Hval.
      { intros [|v values] filename <- Hr.
        - by apply extract_of_error.
        - by apply extract_of_raw. }
      split; [|split; [|split]].
      * intros values Hfile. eapply Hval; [done|]. rewrite Hraw. simpl. by rewrite Hfile.
      * intros Hfile values Hfilename. eapply Hval; [done|]. rewrite Hraw. simpl.
        by rewrite Hfile, Hfilename.
      * intros Hfile Hfilename values Hname. eapply Hval; [done|]. rewrite Hraw. simpl.
        by rewrite Hfile, Hfilename, Hname.
      * intros Hfile Hfilename Hname.
        rewrite (extract_of_raw url ""); [done|]. rewrite Hraw. simpl.
        by rewrite Hfile, Hfilename, Hname.
  - done.
  - apply with_default_ext_no_dot.
  - apply with_default_ext_dot.
Qed.

End ResolverProperties.

(** ** Sanitization *)

Lemma string_forall_append f s1 s2 :
  string_forall f (s1 +:+ s2) = string_forall f s1 && string_forall f s2.
Proof.
  unfold String.app. induction s1 as [|a s1 IH]; simpl; [done|].
  by rewrite IH, andb_assoc.
Qed.

Lemma string_forall_take f n s :
  string_forall f s = true -> string_forall f (take_str n s) = true.
Proof.
  revert s. induction n as [|n IH]; intros [|a s]; simpl; try done.
  intros [Ha Hs]%andb_prop. rewrite Ha. by apply IH.
Qed.

Lemma string_forall_drop f n s :
  string_forall f s = true -> string_forall f (drop_str n s) = true.
Proof.
  revert s. induction n as [|n IH]; intros [|a s]; simpl; try done.
  intros [Ha Hs]%andb_prop. by apply IH.
Qed.

Lemma string_forall_slice_to f s k :
  string_forall f s = true -> string_forall f (slice_to s k) = true.
Proof. intros Hs. unfold slice_to. destruct (0 <=? k); by apply string_forall_take. Qed.

Lemma string_forall_lstrip f chars s :
  string_forall f s = true -> string_forall f (lstrip chars s) = true.
Proof.
  induction s as [|a s IH]; simpl; [done|]. intros Has.
  destruct (chars a); [|done]. apply andb_prop in Has as [_ Hs]. by apply IH.
Qed.

Lemma string_forall_rstrip f chars s :
  string_forall f s = true -> string_forall f (rstrip chars s) = true.
Proof.
  induction s as [|a s IH]; simpl; [done|]. intros [Ha Hs]%andb_prop.
  destruct (chars a && is_empty (rstrip chars s)); [done|].
  simpl. rewrite Ha. by apply IH.
Qed.

Lemma re_sub_illegal_legal s : string_forall legal (re_sub_illegal s) = true.
Proof.
  induction s as [|a s IH]; simpl; [done|]. rewrite IH, andb_true_r.
  unfold legal. by destruct (illegal a) eqn:Ha; [|rewrite Ha].
Qed.

Lemma legal_no_slash s : string_forall legal s = true -> contains_char "/" s = false.
Proof.
  induction s as [|a s IH]; simpl; [done|]. intros [Ha Hs]%andb_prop.
  rewrite (IH Hs), orb_false_r.
  destruct (Ascii.eqb_spec a "/") as [->|]; done.
Qed.

Lemma stripped_name_legal s : string_forall legal (stripped_name s) = true.
Proof.
  unfold stripped_name. cbv zeta. destruct (is_empty _); [reflexivity|].
  apply string_forall_rstrip, string_forall_lstrip, re_sub_illegal_legal.
Qed.

Lemma stripped_name_nonempty s : is_empty (stripped_name s) = false.
Proof.
  unfold stripped_name. cbv zeta.
  destruct (is_empty (strip dot_or_space (re_sub_illegal s))) eqn:He; [reflexivity|exact He].
Qed.

Lemma name_of_Path t :
  contains_char "/" t = false ->
  pathlib.name (Path t) = t \/ pathlib.name (Path t) = "".
Proof.
  intros Ht. unfold pathlib.name, Path. rewrite (split_on_absent _ _ Ht). simpl.
  destruct (is_component t); simpl; auto.
Qed.

Lemma stem_suffix_legal t :
  string_forall legal t = true ->
  string_forall legal (pathlib.stem (Path t)) = true /\
  string_forall legal (pathlib.suffix (Path t)) = true.
Proof.
  intros Ht. unfold pathlib.stem, pathlib.suffix.
  assert (string_forall legal (pathlib.name (Path t)) = true) as Hn.
  { destruct (name_of_Path t (legal_no_slash t Ht)) as [-> | ->]; done. }
  destruct (_ && _); split; try done.
  - by apply string_forall_slice_to.
  - by apply string_forall_drop.
Qed.

Lemma sanitize_unfold s :
  _sanitize_filename s =
    let t := stripped_name s in
    if 255 <? py_len t then
      slice_to (pathlib.stem (Path t)) (255 - py_len (pathlib.suffix (Path t))) +:+
      pathlib.suffix (Path t)
    else t.
Proof. reflexivity. Qed.

(** The part of C5 that holds for every name: the result holds none of the
    characters of the class, that is none of the nine listed ones and no
    character below [\x20]. *)
Lemma sanitize_legal s : string_forall legal (_sanitize_filename s) = true.
Proof.
  rewrite sanitize_unfold. cbv zeta.
  pose proof (stripped_name_legal s) as Ht.
  destruct (255 <? _); [|done].
  destruct (stem_suffix_legal _ Ht) as [Hstem Hsuffix].
  rewrite string_forall_append, Hsuffix, andb_true_r.
  by apply string_forall_slice_to.
Qed.

Lemma take_str_length n s : (String.length (take_str n s) <= n)%nat.
Proof.
  revert s. induction n as [|n IH]; intros [|a s]; simpl; try lia.
  specialize (IH s). lia.
Qed.

Lemma slice_to_length s k : 0 <= k -> py_len (slice_to s k) <= k.
Proof.
  intros Hk. unfold slice_to, py_len. apply Z.leb_le in Hk as Hk'. rewrite Hk'.
  pose proof (take_str_length (Z.to_nat k) s). lia.
Qed.

(** The length is at most 255 as long as the extension is. *)
Lemma sanitize_length s :
  py_len (pathlib.suffix (Path (stripped_name s))) <= 255 ->
  py_len (_sanitize_filename s) <= 255.
Proof.
  rewrite sanitize_unfold. cbv zeta. intros Hext.
  destruct (255 <? _) eqn:Hlen; [|by apply Z.ltb_ge in Hlen].
  set (ext := pathlib.suffix (Path (stripped_name s))) in *.
  set (stem := pathlib.stem (Path (stripped_name s))).
  pose proof (slice_to_length stem (255 - py_len ext)) as Hs.
  unfold py_len in *. rewrite length_append, Nat2Z.inj_add. lia.
Qed.

Lemma lstrip_starts chars s : starts_with_any chars (lstrip chars s) = false.
Proof.
  induction s as [|a s IH]; simpl; [done|].
  destruct (chars a) eqn:Ha; [done|]. simpl. done.
Qed.

Lemma rstrip_ends chars s : ends_with_any chars (rstrip chars s) = false.
Proof.
  induction s as [|a s IH]; simpl; [done|].
  destruct (rstrip chars s) as [|b r] eqn:Hr; simpl.
  - rewrite andb_true_r. by destruct (chars a) eqn:Ha; simpl.
  - rewrite andb_false_r. simpl. done.
Qed.

Lemma rstrip_starts chars s :
  starts_with_any chars s = false -> starts_with_any chars (rstrip chars s) = false.
Proof. destruct s as [|a s]; simpl; [done|]. intros Ha. rewrite Ha. simpl. done. Qed.

Lemma stripped_name_ends s :
  starts_with_any dot_or_space (stripped_name s) = false /\
  ends_with_any dot_or_space (stripped_name s) = false.
Proof.
  unfold stripped_name. cbv zeta. destruct (is_empty _); [done|]. split.
  - apply rstrip_starts, lstrip_starts.
  - apply rstrip_ends.
Qed.

Lemma re_sub_illegal_id s : string_forall legal s = true -> re_sub_illegal s = s.
Proof.
  induction s as [|a s IH]; simpl; [done|]. intros [Ha Hs]%andb_prop.
  rewrite (IH Hs). unfold legal in Ha. apply negb_true_iff in Ha. by rewrite Ha.
Qed.

Lemma lstrip_id chars s : starts_with_any chars s = false -> lstrip chars s = s.
Proof. destruct s as [|a s]; simpl; [done|]. by intros ->. Qed.

Lemma rstrip_id chars s : ends_with_any chars s = false -> rstrip chars s = s.
Proof.
  induction s as [|a s IH]; [done|]. cbn [rstrip ends_with_any].
  destruct s as [|b s].
  - intros ->. done.
  - intros Hs. rewrite (IH Hs). simpl. by rewrite andb_false_r.
Qed.

Lemma stripped_name_fixed s : stripped_name (stripped_name s) = stripped_name s.
Proof.
  destruct (stripped_name_ends s) as [Hstart Hend].
  unfold stripped_name at 1.
  rewrite re_sub_illegal_id by apply stripped_name_legal.
  unfold strip. rewrite lstrip_id, rstrip_id by done.
  by rewrite stripped_name_nonempty.
Qed.

(** The whole of C5 and of C10 for the names that are not cut: when the name
    has at most 255 characters once the characters are replaced and the dots
    and spaces stripped, the result is that name; it is not empty, has at
    most 255 characters, neither starts nor ends with a dot or a space (it is
    the placeholder when nothing else is left), and sanitizing it again
    changes nothing. *)
Lemma sanitize_short s :
  py_len (stripped_name s) <= 255 ->
  _sanitize_filename s = stripped_name s /\
  is_empty (_sanitize_filename s) = false /\
  py_len (_sanitize_filename s) <= 255 /\
  starts_with_any dot_or_space (_sanitize_filename s) = false /\
  ends_with_any dot_or_space (_sanitize_filename s) = false /\
  (is_empty (strip dot_or_space (re_sub_illegal s)) = true ->
   _sanitize_filename s = "downloaded_file") /\
  _sanitize_filename (_sanitize_filename s) = _sanitize_filename s.
Proof.
  intros Hlen.
  assert (_sanitize_filename s = stripped_name s) as Heq.
  { rewrite sanitize_unfold. cbv zeta. apply Z.ltb_ge in Hlen. by rewrite Hlen. }
  destruct (stripped_name_ends s) as [Hstart Hend].
  rewrite Heq. repeat split; try done.
  - apply stripped_name_nonempty.
  - intros Hempty. unfold stripped_name. by rewrite Hempty.
  - rewrite sanitize_unfold. cbv zeta. rewrite stripped_name_fixed.
    apply Z.ltb_ge in Hlen. by rewrite Hlen.
Qed.

(** ** Sanitization on long names *)

(** C5, at two inputs. A name of 256 characters without a dot whose 255th
    character is a space is cut after that space: the result ends in a space.
    A name whose extension has 301 characters keeps the whole extension and
    loses the whole stem: the result has 301 characters and starts with a
    dot. *)
Lemma sanitize_long_names :
  _sanitize_filename (repeat_char "a" 254 +:+ " b") = repeat_char "a" 254 +:+ " " /\
  py_len (_sanitize_filename (repeat_char "a" 254 +:+ " b")) = 255 /\
  _sanitize_filename ("a." +:+ repeat_char "b" 300) = "." +:+ repeat_char "b" 300 /\
  py_len (_sanitize_filename ("a." +:+ repeat_char "b" 300)) = 301.
Proof. vm_compute. done. Qed.

(** C10, at one input: a name of 256 characters without a dot whose 255th
    character is a space is cut after that space, and sanitizing the result
    again strips the space. *)
Lemma sanitize_twice_differs :
  let s := repeat_char "a" 254 +:+ " b" in
  _sanitize_filename s = repeat_char "a" 254 +:+ " " /\
  _sanitize_filename (_sanitize_filename s) = repeat_char "a" 254 /\
  _sanitize_filename (_sanitize_filename s) <> _sanitize_filename s.
Proof. vm_compute. done. Qed.

(** ** Worked examples *)

(** C8 at the URL [ftp://example.com/data.json]. *)
Lemma invalid_url_fails_fast_witness :
  startswith "http://" "ftp://example.com/data.json" = false /\
  startswith "https://" "ftp://example.com/data.json" = false /\
  _download_single_file_internal (platform := reference_platform)
    "ftp://example.com/data.json" "/tmp/t" None 60 500 (serves 40) empty_world =
    (failure "" "Invalid URL format. URL must start with http:// or https://",
     empty_world).
Proof.
  split; [reflexivity|]. split; [reflexivity|].
  apply (invalid_url_fails_fast (platform := reference_platform)
           "ftp://example.com/data.json" "/tmp/t" None 60 500 (serves 40) empty_world);
    reflexivity.
Defined.

(** C3, as stated, fails: with a limit of 0 MB and a body of 5 bytes the
    download is aborted at 5 bytes, and the error text gives the amount as
    [0.00 MB]; the number 5 does not occur in it. *)
Lemma size_error_text_rounds :
  let r := (_download_single_file_internal (platform := reference_platform) example_url
              "/tmp/t" None 60 0 (serves 5) empty_world).1 in
  first_excess (0 * 1024 * 1024) 0 [List.repeat x20 5] = Some 5 /\
  success r = false /\
  error r = Some "File exceeded size limit during download (0.00 MB > 0 MB)" /\
  ~ (exists text, error r = Some text /\ mentions 5 text = true).
Proof.
  vm_compute. split; [done|]. split; [done|]. split; [done|].
  intros (text & [= <-] & Hm). done.
Qed.

(** C3, as amended, at that input. *)
Lemma size_limit_aborts_witness :
  exists w',
    _download_single_file_internal (platform := reference_platform) example_url "/tmp/t"
      None 60 0 (serves 5) empty_world =
      (failure "data.json" "File exceeded size limit during download (0.00 MB > 0 MB)",
       w') /\
    fs w' !! "/tmp/t/data.json" = None.
Proof.
  edestruct (size_limit_aborts (platform := reference_platform) example_url "/tmp/t" None 60 0
               (serves 5) empty_world) as (w' & Hrun & _ & Hgone & _).
  - vm_compute. reflexivity.
  - vm_compute. reflexivity.
  - vm_compute. reflexivity.
  - reflexivity.
  - reflexivity.
  - exists w'. split; [exact Hrun|exact Hgone].
Defined.


(** C7 at a URL with all three parameters: [file] wins. *)
Lemma extract_filename_spec_witness :
  urlparse (Platform := reference_platform) "http://x/?name=n&file=f&filename=g" =
    Some ("/", "name=n&file=f&filename=g") /\
  _extract_filename_from_url (platform := reference_platform)
    "http://x/?name=n&file=f&filename=g" = "f.bin".
Proof.
  split; [reflexivity|].
  destruct (extract_filename_spec (platform := reference_platform)
              "http://x/?name=n&file=f&filename=g") as (_ & Hcases & _).
  destruct (Hcases "/" "name=n&file=f&filename=g" eq_refl) as (_ & _ & Hquery).
  destruct (Hquery eq_refl _ eq_refl) as (Hfile & _).
  exact (Hfile ["f"] eq_refl).
Defined.

(** The scenario of the specification: a JSON body of 40 bytes, no file name
    given, a limit of 500 MB, into [/tmp/t]. *)
Example download_data_json :
  (_download_single_file_internal (platform := reference_platform) example_url
     "/tmp/t" None 60 500 (serves 40) empty_world).1 =
  {| file_path := "/tmp/t/data.json"; file_name := "data.json"; file_size := 40;
     content_type := Some "application/json"; success := true; error := None |}.
Proof. vm_compute. reflexivity. Qed.

(** The same download once more, into the world the first one has left. *)
Example download_data_json_again :
  let w1 := (_download_single_file_internal (platform := reference_platform)
               example_url "/tmp/t" None 60 500 (serves 40) empty_world).2 in
  let r2 := (_download_single_file_internal (platform := reference_platform)
               example_url "/tmp/t" None 60 500 (serves 40) w1).1 in
  file_path r2 = "/tmp/t/data_1.json" /\ file_name r2 = "data_1.json" /\
  success r2 = true.
Proof. vm_compute. done. Qed.

(** The scenario of the specification: of three URLs the second is answered
    with status 404. The coroutines are resumed in turn. *)
Example batch_with_404 :
  let net i := if Nat.eqb i 1 then not_found else serves 40 in
  let resp :=
    (download_files (platform := reference_platform)
       ["https://example.com/a"; "https://example.com/b"; "https://example.com/c"]
       (Some "/tmp/t") 60 500 net [0; 1; 2; 0; 1; 2; 0; 1; 2; 0; 2; 0; 2]%nat
       empty_world).1 in
  success_count resp = 2 /\ failed_count resp = 1 /\
  success <$> results resp = [true; false; true] /\
  (error <$> results resp) !! 1%nat =
    Some (Some "Client error '404 Not Found' for url 'https://example.com/b'").
Proof. vm_compute. done. Qed.

(** The scenario of the specification for names. *)
Example sanitize_illegal_characters : _sanitize_filename "a/b:c*d" = "a_b_c_d".
Proof. reflexivity. Qed.
(** * Further properties *)

(** ** Names that are safe to join to a directory *)

Lemma ends_with_any_append chars s1 s2 :
  is_empty s2 = false -> ends_with_any chars (s1 +:+ s2) = ends_with_any chars s2.
Proof.
  intros Hs2. induction s1 as [|a s1 IH]; [done|].
  change (String a s1 +:+ s2) with (String a (s1 +:+ s2)).
  destruct (s1 +:+ s2) eqn:Happ.
  - apply append_empty in Happ as [_ ->]. simpl in Hs2. discriminate.
  - exact IH.
Qed.

Lemma ends_with_any_drop chars n s :
  (n < String.length s)%nat -> ends_with_any chars (drop_str n s) = ends_with_any chars s.
Proof.
  revert s. induction n as [|n IH]; intros [|a s] Hn; simpl in *; try done; try lia.
  rewrite IH by lia. destruct s; [simpl in Hn; lia|done].
Qed.

Lemma drop_str_nonempty n s : (n < String.length s)%nat -> is_empty (drop_str n s) = false.
Proof.
  revert s. induction n as [|n IH]; intros [|a s] Hn; simpl in *; try done; try lia.
  apply IH. lia.
Qed.

Lemma not_dots s :
  is_empty s = false ->
  starts_with_any dot_or_space s = false \/ ends_with_any dot_or_space s = false ->
  String.eqb s "." = false /\ String.eqb s ".." = false.
Proof.
  intros Hne Hends. split.
  - destruct (String.eqb_spec s ".") as [->|]; [|done]. by destruct Hends.
  - destruct (String.eqb_spec s "..") as [->|]; [|done]. by destruct Hends.
Qed.

Lemma stripped_name_component s : is_component (stripped_name s) = true.
Proof.
  unfold is_component. rewrite stripped_name_nonempty.
  destruct (stripped_name_ends s) as [Hstart _].
  destruct (not_dots _ (stripped_name_nonempty s) (or_introl Hstart)) as [-> _]. done.
Qed.

Lemma stripped_name_Path s : Path (stripped_name s) = Path_ "" [stripped_name s].
Proof.
  apply Path_component; [|apply stripped_name_component].
  apply legal_no_slash, stripped_name_legal.
Qed.

Lemma stripped_name_is_name s : pathlib.name (Path (stripped_name s)) = stripped_name s.
Proof. by rewrite stripped_name_Path. Qed.

(** Stem and suffix of a name that is a path of its own: the name is split
    at its last dot, when that dot is neither first nor last. *)
Lemma stem_suffix_split t :
  pathlib.name (Path t) = t ->
  (pathlib.suffix (Path t) = "" /\ pathlib.stem (Path t) = t) \/
  (0 < rfind "." t < py_len t - 1 /\
   pathlib.suffix (Path t) = drop_str (Z.to_nat (rfind "." t)) t /\
   pathlib.stem (Path t) = take_str (Z.to_nat (rfind "." t)) t).
Proof.
  intros Hname. unfold pathlib.suffix, pathlib.stem. rewrite Hname.
  destruct ((0 <? rfind "." t) && (rfind "." t <? py_len t - 1)) eqn:Hcond.
  - right. apply andb_prop in Hcond as [H0%Z.ltb_lt H1%Z.ltb_lt].
    split; [lia|]. split; [done|]. unfold slice_to.
    assert ((0 <=? rfind "." t) = true) as -> by (apply Z.leb_le; lia). done.
  - by left.
Qed.

(** The two results of the cut: the first 255 characters of a name without
    extension, or a shortened stem followed by the whole extension, which
    starts at a dot inside the name. *)
Lemma sanitize_cut s :
  255 < py_len (stripped_name s) ->
  (pathlib.suffix (Path (stripped_name s)) = "" /\
   _sanitize_filename s = take_str 255 (stripped_name s)) \/
  (0 < rfind "." (stripped_name s) < py_len (stripped_name s) - 1 /\
   pathlib.suffix (Path (stripped_name s)) =
     drop_str (Z.to_nat (rfind "." (stripped_name s))) (stripped_name s) /\
   _sanitize_filename s =
     slice_to (take_str (Z.to_nat (rfind "." (stripped_name s))) (stripped_name s))
       (255 - py_len (drop_str (Z.to_nat (rfind "." (stripped_name s)))
                        (stripped_name s))) +:+
     drop_str (Z.to_nat (rfind "." (stripped_name s))) (stripped_name s)).
Proof.
  intros Hlen. rewrite sanitize_unfold. cbv zeta.
  apply Z.ltb_lt in Hlen as Hlen'. rewrite Hlen'.
  destruct (stem_suffix_split _ (stripped_name_is_name s))
    as [[-> ->]|(Hi & -> & ->)].
  - left. split; [done|]. by rewrite append_nil_r.
  - right. done.
Qed.

Lemma take_str_nonempty n s :
  (0 < n)%nat -> is_empty s = false ->
  is_empty (take_str n s) = false /\
  forall chars, starts_with_any chars (take_str n s) = starts_with_any chars s.
Proof. destruct n as [|n]; [lia|]. by destruct s. Qed.

(** The result never is empty, and it starts or ends with a character that is
    neither a dot nor a space. *)
Lemma sanitize_ends s :
  is_empty (_sanitize_filename s) = false /\
  (starts_with_any dot_or_space (_sanitize_filename s) = false \/
   ends_with_any dot_or_space (_sanitize_filename s) = false).
Proof.
  destruct (stripped_name_ends s) as [Hstart Hend].
  pose proof (stripped_name_nonempty s) as Hne.
  destruct (Z.le_gt_cases (py_len (stripped_name s)) 255) as [Hshort|Hlong].
  - rewrite sanitize_unfold. cbv zeta. apply Z.ltb_ge in Hshort. rewrite Hshort. auto.
  - destruct (sanitize_cut s Hlong) as [(_ & ->)|(Hi & _ & ->)].
    + destruct (take_str_nonempty 255 (stripped_name s)) as [Hne' Hst]; [lia|done|].
      split; [done|]. left. by rewrite Hst.
    + assert (Z.to_nat (rfind "." (stripped_name s)) < String.length (stripped_name s))%nat
        as Hlt by (unfold py_len in Hi; lia).
      pose proof (drop_str_nonempty _ _ Hlt) as Hext. split.
      * destruct (slice_to _ _ +:+ _) eqn:Happ; [|done].
        apply append_empty in Happ as [_ Happ]. by rewrite Happ in Hext.
      * right. rewrite ends_with_any_append by done. by rewrite ends_with_any_drop.
Qed.

Lemma sanitize_safe_name s : safe_name (_sanitize_filename s) = true.
Proof.
  destruct (sanitize_ends s) as [Hne Hends].
  destruct (not_dots _ Hne Hends) as [Hdot Hdots].
  unfold safe_name. rewrite Hne, Hdot, Hdots.
  by rewrite (legal_no_slash _ (sanitize_legal s)).
Qed.

(** X1. For every input, [_sanitize_filename] returns a name that is not
    empty, holds none of the characters of the class, in particular no
    separator, and is neither [.] nor [..]: joined to a directory it names an
    entry of that directory. *)
Theorem sanitize_safe (filename : string) :
  safe_name (_sanitize_filename filename) = true /\
  string_forall legal (_sanitize_filename filename) = true.
Proof. split; [apply sanitize_safe_name|apply sanitize_legal]. Qed.

Lemma clean_name_parts s :
  clean_name s = true ->
  string_forall legal s = true /\ is_empty s = false /\
  starts_with_any dot_or_space s = false /\ ends_with_any dot_or_space s = false /\
  py_len s <= 255.
Proof.
  unfold clean_name. intros Hc.
  repeat (apply andb_prop in Hc as [Hc ?]).
  repeat match goal with H : negb _ = true |- _ => apply negb_true_iff in H end.
  repeat split; try done. by apply Z.leb_le.
Qed.

Lemma stripped_name_clean s : clean_name s = true -> stripped_name s = s.
Proof.
  intros (Hlegal & Hne & Hstart & Hend & _)%clean_name_parts.
  unfold stripped_name. rewrite re_sub_illegal_id by done.
  unfold strip. rewrite lstrip_id, rstrip_id by done. by rewrite Hne.
Qed.

Lemma sanitize_clean s : clean_name s = true -> _sanitize_filename s = s.
Proof.
  intros Hclean. pose proof (stripped_name_clean _ Hclean) as Heq.
  apply clean_name_parts in Hclean as (_ & _ & _ & _ & Hlen).
  rewrite sanitize_unfold. cbv zeta. rewrite Heq.
  apply Z.ltb_ge in Hlen. by rewrite Hlen.
Qed.

(** X2. A name that is already clean comes back unchanged: not empty, at most
    255 characters, none of the characters of the class, no dot or space at
    either end. *)
Theorem sanitize_clean_unchanged (filename : string) :
  clean_name filename = true -> _sanitize_filename filename = filename.
Proof. apply sanitize_clean. Qed.

Lemma take_str_length_le n s :
  (n <= String.length s)%nat -> String.length (take_str n s) = n.
Proof.
  revert s. induction n as [|n IH]; intros [|a s] Hn; simpl in *; try done; try lia.
  rewrite IH; lia.
Qed.

Lemma drop_str_length n s :
  String.length (drop_str n s) = (String.length s - n)%nat.
Proof.
  revert s. induction n as [|n IH]; intros [|a s]; simpl; done.
Qed.

Lemma take_str_take k i t :
  (k <= i)%nat -> take_str k (take_str i t) = take_str k t.
Proof.
  revert i t. induction k as [|k IH]; intros [|i] [|a t] Hk; simpl; try done; try lia.
  rewrite IH; [done|lia].
Qed.

(** X3. A name that is too long is cut to exactly 255 characters, and the cut
    is taken from the stem: the result ends with the whole extension, as long
    as the extension itself has at most 255 characters. *)
Theorem sanitize_cut_length (filename : string) :
  255 < py_len (stripped_name filename) ->
  py_len (pathlib.suffix (Path (stripped_name filename))) <= 255 ->
  py_len (_sanitize_filename filename) = 255 /\
  exists kept,
    _sanitize_filename filename =
      kept +:+ pathlib.suffix (Path (stripped_name filename)) /\
    kept = take_str (String.length kept) (stripped_name filename).
Proof.
  intros Hlong Hext.
  destruct (sanitize_cut filename Hlong)
    as [(Hsuffix & Hout)|(Hi & Hsuffix & Hout)]; rewrite Hout, Hsuffix in *.
  - unfold py_len in *. rewrite take_str_length_le by lia. split; [done|].
    exists (take_str 255 (stripped_name filename)). rewrite append_nil_r.
    split; [done|]. by rewrite take_str_length_le by lia.
  - set (t := stripped_name filename) in *. set (i := Z.to_nat (rfind "." t)) in *.
    unfold py_len in *. rewrite drop_str_length in *.
    unfold slice_to.
    assert ((0 <=? 255 - Z.of_nat (String.length t - i)) = true) as ->
      by (apply Z.leb_le; lia).
    set (k := Z.to_nat (255 - Z.of_nat (String.length t - i))).
    assert (k <= i)%nat as Hk by lia.
    assert (take_str k (take_str i t) = take_str k t) as Htake
      by by apply take_str_take.
    assert (String.length (take_str k t) = k) as Hklen
      by (apply take_str_length_le; lia).
    rewrite Htake. split.
    + rewrite length_append, Hklen, drop_str_length. lia.
    + exists (take_str k t). split; [done|]. by rewrite Hklen.
Qed.

(** ** Names that are not cut *)

Lemma re_sub_illegal_length s : String.length (re_sub_illegal s) = String.length s.
Proof. induction s as [|a s IH]; simpl; [done|]. by rewrite IH. Qed.

Lemma lstrip_length chars s : (String.length (lstrip chars s) <= String.length s)%nat.
Proof.
  induction s as [|a s IH]; simpl; [done|]. destruct (chars a); simpl; lia.
Qed.

Lemma rstrip_length chars s : (String.length (rstrip chars s) <= String.length s)%nat.
Proof.
  induction s as [|a s IH]; simpl; [done|].
  destruct (chars a && is_empty (rstrip chars s)); simpl; lia.
Qed.

Lemma stripped_name_length s : py_len s <= 255 -> py_len (stripped_name s) <= 255.
Proof.
  intros Hlen. unfold stripped_name. cbv zeta.
  destruct (is_empty _); [by vm_compute|].
  unfold strip, py_len in *.
  pose proof (rstrip_length dot_or_space (lstrip dot_or_space (re_sub_illegal s))).
  pose proof (lstrip_length dot_or_space (re_sub_illegal s)).
  pose proof (re_sub_illegal_length s). lia.
Qed.

(** X4. For a name of at most 255 characters the result has at most 255
    characters, neither starts nor ends with a dot or a space, and is stable:
    sanitizing it again returns it unchanged. *)
Theorem sanitize_uncut_stable (filename : string) :
  py_len filename <= 255 ->
  py_len (_sanitize_filename filename) <= 255 /\
  starts_with_any dot_or_space (_sanitize_filename filename) = false /\
  ends_with_any dot_or_space (_sanitize_filename filename) = false /\
  _sanitize_filename (_sanitize_filename filename) = _sanitize_filename filename.
Proof.
  intros Hlen.
  destruct (sanitize_short filename (stripped_name_length filename Hlen))
    as (_ & _ & Hle & Hstart & Hend & _ & Hstable).
  done.
Qed.

(** ** The extension of a renamed file *)

Lemma uint_digits_no_dot d : contains_char "." (NilEmpty.string_of_uint d) = false.
Proof. induction d; simpl; done. Qed.

Lemma str_of_int_no_dot n : contains_char "." (str_of_int n) = false.
Proof.
  unfold str_of_int, NilZero.string_of_int, NilZero.string_of_uint.
  destruct (Z.to_int n) as [d|d]; destruct d; simpl; try done; apply uint_digits_no_dot.
Qed.

Lemma rfind_from_append c s1 s2 i last :
  rfind_from c (s1 +:+ s2) i last =
    rfind_from c s2 (i + py_len s1) (rfind_from c s1 i last).
Proof.
  revert i last. induction s1 as [|a s1 IH]; intros i last.
  - change ("" +:+ s2) with s2. unfold py_len. simpl. by rewrite Z.add_0_r.
  - change (String a s1 +:+ s2) with (String a (s1 +:+ s2)). simpl. rewrite IH.
    f_equal. unfold py_len. simpl String.length. lia.
Qed.

Lemma rfind_from_absent c s i last :
  contains_char c s = false -> rfind_from c s i last = last.
Proof.
  revert i last. induction s as [|a s IH]; intros i last; simpl; [done|].
  intros [Ha Hs]%orb_false_elim. by rewrite Ha, IH.
Qed.

Lemma rfind_from_bounds c s i last :
  rfind_from c s i last = last \/ i <= rfind_from c s i last < i + py_len s.
Proof.
  revert i last. induction s as [|a s IH]; intros i last; simpl; [by left|].
  unfold py_len in *. simpl String.length.
  destruct (IH (i + 1) (if Ascii.eqb a c then i else last)) as [->|Hr].
  - destruct (Ascii.eqb a c); [right; lia|by left].
  - right. lia.
Qed.

Lemma rfind_from_present c s i last :
  contains_char c s = true -> i <= rfind_from c s i last.
Proof.
  revert i last. induction s as [|a s IH]; intros i last; simpl; [done|].
  destruct (contains_char c s) eqn:Hs.
  - intros _. specialize (IH (i + 1) (if Ascii.eqb a c then i else last) eq_refl). lia.
  - rewrite orb_false_r. intros ->. by rewrite rfind_from_absent.
Qed.

(** At the index [rfind] gives there is the character, and none after it. *)
Lemma rfind_from_found c s i last :
  last < i -> i <= rfind_from c s i last ->
  exists rest, drop_str (Z.to_nat (rfind_from c s i last - i)) s = String c rest /\
    contains_char c rest = false.
Proof.
  revert i last. induction s as [|a s IH]; intros i last Hlast; simpl; [lia|].
  destruct (contains_char c s) eqn:Hs.
  - intros _.
    pose proof (rfind_from_present c s (i + 1) (if Ascii.eqb a c then i else last) Hs)
      as Hge.
    destruct (IH (i + 1) (if Ascii.eqb a c then i else last)) as (rest & Hdrop & Hrest);
      [destruct (Ascii.eqb a c); lia|done|].
    exists rest. split; [|done]. rewrite <- Hdrop.
    replace (Z.to_nat (rfind_from c s (i + 1) (if Ascii.eqb a c then i else last) - i))
      with (S (Z.to_nat (rfind_from c s (i + 1) (if Ascii.eqb a c then i else last)
                         - (i + 1)))) by lia.
    done.
  - rewrite rfind_from_absent by done.
    destruct (Ascii.eqb a c) eqn:Ha; [|lia]. intros _.
    apply Ascii.eqb_eq in Ha as ->. rewrite Z.sub_diag. by exists s.
Qed.

Lemma drop_str_append s1 s2 : drop_str (String.length s1) (s1 +:+ s2) = s2.
Proof.
  induction s1 as [|a s1 IH]; [by destruct s2|].
  change (String a s1 +:+ s2) with (String a (s1 +:+ s2)). done.
Qed.

Lemma take_str_append s1 s2 : take_str (String.length s1) (s1 +:+ s2) = s1.
Proof.
  induction s1 as [|a s1 IH]; [by destruct s2|].
  change (String a s1 +:+ s2) with (String a (s1 +:+ s2)). simpl. by rewrite IH.
Qed.

(** A name that does not end in a dot, with [tag] put between its stem and
    its suffix, has the same suffix, and the stem with [tag]. *)
Lemma suffix_of_tagged n tag :
  contains_char "." tag = false -> is_empty tag = false ->
  ends_with_any is_dot n = false ->
  let split (t : string) :=
    if (0 <? rfind "." t) && (rfind "." t <? py_len t - 1)
    then (slice_to t (rfind "." t), slice_from t (rfind "." t)) else (t, "") in
  split (((split n).1 +:+ tag) +:+ (split n).2) = ((split n).1 +:+ tag, (split n).2).
Proof.
  intros Htag Hne Hend. cbv beta zeta.
  pose proof (rfind_from_bounds "." n 0 (-1)) as Hbounds. fold (rfind "." n) in Hbounds.
  destruct ((0 <? rfind "." n) && (rfind "." n <? py_len n - 1)) eqn:Hcond; cbn [fst snd].
  - apply andb_prop in Hcond as [H0%Z.ltb_lt H1%Z.ltb_lt].
    destruct (rfind_from_found "." n 0 (-1)) as (rest & Hdrop & Hrest);
      [lia|fold (rfind "." n); lia|].
    fold (rfind "." n) in Hdrop. rewrite Z.sub_0_r in Hdrop.
    assert (String.length rest <> 0)%nat as Hrest_len.
    { pose proof (drop_str_length (Z.to_nat (rfind "." n)) n) as Hlen.
      rewrite Hdrop in Hlen. simpl in Hlen. unfold py_len in H1. lia. }
    change (drop_str (Z.to_nat (rfind "." n)) n) with (slice_from n (rfind "." n))
      in Hdrop.
    rewrite !Hdrop. set (m := slice_to n (rfind "." n) +:+ tag).
    assert (String.length m <> 0)%nat as Hm_len.
    { unfold m. rewrite length_append. destruct tag; [done|]. simpl. lia. }
    assert (rfind "." (m +:+ String "." rest) = py_len m) as Hfind.
    { unfold rfind. rewrite rfind_from_append. simpl.
      by rewrite rfind_from_absent by done. }
    rewrite Hfind.
    assert ((0 <? py_len m) && (py_len m <? py_len (m +:+ String "." rest) - 1) = true)
      as ->.
    { unfold py_len. rewrite length_append. simpl String.length.
      apply andb_true_intro. split; [apply Z.ltb_lt|apply Z.ltb_lt]; lia. }
    unfold slice_to, slice_from, py_len.
    assert ((0 <=? Z.of_nat (String.length m)) = true) as -> by (apply Z.leb_le; lia).
    by rewrite Nat2Z.id, take_str_append, drop_str_append.
  - rewrite append_nil_r.
    assert (rfind "." (n +:+ tag) = rfind "." n) as Hfind.
    { unfold rfind. rewrite rfind_from_append. by apply rfind_from_absent. }
    rewrite Hfind.
    destruct (0 <? rfind "." n) eqn:H0; [|done]. apply Z.ltb_lt in H0.
    cbn [andb] in Hcond. apply Z.ltb_ge in Hcond.
    destruct Hbounds as [Hb|Hb]; [lia|]. exfalso.
    destruct (rfind_from_found "." n 0 (-1)) as (rest & Hdrop & Hrest);
      [lia|fold (rfind "." n); lia|].
    fold (rfind "." n) in Hdrop. rewrite Z.sub_0_r in Hdrop.
    pose proof (drop_str_length (Z.to_nat (rfind "." n)) n) as Hlen.
    rewrite Hdrop in Hlen. unfold py_len in *. simpl in Hlen.
    assert (rest = "") as -> by (destruct rest; [done|simpl in Hlen; lia]).
    rewrite <- (ends_with_any_drop is_dot (Z.to_nat (rfind "." n)) n) in Hend by lia.
    by rewrite Hdrop in Hend.
Qed.

(** X5. The resolver keeps the extension: for a path whose name does not
    end in a dot, the path it returns has the same suffix, and as stem the
    stem of the path, followed by an underscore and the counter when the path
    is taken. *)
Theorem unique_filepath_keeps_suffix (fs0 : gmap string node) (p : path) :
  valid_path p = true ->
  ends_with_any is_dot (pathlib.name p) = false ->
  let q := _get_unique_filepath fs0 p in
  pathlib.suffix q = pathlib.suffix p /\
  (fs_exists fs0 p = false -> pathlib.stem q = pathlib.stem p) /\
  (fs_exists fs0 p = true ->
   exists k, 1 <= k /\ pathlib.stem q = pathlib.stem p +:+ "_" +:+ str_of_int k).
Proof.
  intros Hvalid Hend q. unfold q.
  destruct (unique_filepath_cases fs0 p Hvalid)
    as [[Hfree ->]|(Hex & k & Hk & -> & _)].
  - split; [done|]. split; [done|]. intros Hex. congruence.
  - assert (pathlib.stem (candidate p k) =
              pathlib.stem p +:+ "_" +:+ str_of_int k /\
            pathlib.suffix (candidate p k) = pathlib.suffix p) as [Hstem Hsuffix].
    { pose proof (suffix_of_tagged (pathlib.name p) ("_" +:+ str_of_int k)
                    (str_of_int_no_dot k) eq_refl Hend) as Htag.
      cbv beta zeta in Htag. unfold pathlib.stem, pathlib.suffix.
      rewrite (candidate_name p k Hvalid). unfold pathlib.stem, pathlib.suffix.
      destruct ((0 <? rfind "." (pathlib.name p)) && _); cbn [fst snd] in Htag;
        rewrite !append_assoc in Htag;
        destruct ((0 <? rfind "." _) && _);
        apply pair_equal_spec in Htag as [Hs Hx]; done. }
    split; [done|]. split; [congruence|]. intros _. by exists k.
Qed.

Section ConfinementProperties.
Context {platform : Platform}.

(** X6. A URL whose path ends in a clean name with a dot gives that name
    (percent-decoded) as it is. *)
Theorem extract_clean_name (url path query : string) :
  urlparse url = Some (path, query) ->
  clean_name (unquote (pathlib.name (Path path))) = true ->
  contains_char "." (unquote (pathlib.name (Path path))) = true ->
  _extract_filename_from_url url = unquote (pathlib.name (Path path)).
Proof.
  intros Hparse Hclean Hdot.
  pose proof (clean_name_parts _ Hclean) as (_ & Hne & _).
  rewrite (extract_of_raw url (unquote (pathlib.name (Path path)))).
  - rewrite Hne. unfold with_default_ext. rewrite Hdot. by apply sanitize_clean.
  - unfold raw_filename. rewrite Hparse. simpl. by rewrite Hne.
Qed.

Lemma extract_safe_name url : safe_name (_extract_filename_from_url url) = true.
Proof.
  unfold _extract_filename_from_url. destruct (raw_filename url); [|done].
  apply sanitize_safe_name.
Qed.

(** X7. Whatever the URL, the name derived from it is one path component
    without a character of the class: it is not empty, holds no separator
    and is neither [.] nor [..], so a URL cannot name a file outside the
    output directory. *)
Theorem extract_filename_safe (url : string) :
  safe_name (_extract_filename_from_url url) = true /\
  string_forall legal (_extract_filename_from_url url) = true.
Proof.
  unfold _extract_filename_from_url. destruct (raw_filename url); [|done].
  split; [apply sanitize_safe_name|apply sanitize_legal].
Qed.

Lemma resolve_filename_safe url filename :
  safe_name (resolve_filename url filename) = true.
Proof.
  unfold resolve_filename. destruct filename as [f|]; [|apply extract_safe_name].
  destruct (is_empty f); [apply extract_safe_name|apply sanitize_safe_name].
Qed.

Lemma safe_name_parts s :
  safe_name s = true ->
  is_empty s = false /\ contains_char "/" s = false /\
  String.eqb s "." = false /\ String.eqb s ".." = false.
Proof.
  unfold safe_name. intros Hs. repeat (apply andb_prop in Hs as [Hs ?]).
  repeat match goal with H : negb _ = true |- _ => apply negb_true_iff in H end.
  done.
Qed.

Lemma safe_name_Path s : safe_name s = true -> Path s = Path_ "" [s].
Proof.
  intros (Hne & Hslash & Hdot & _)%safe_name_parts.
  apply Path_component; [done|]. unfold is_component. by rewrite Hne, Hdot.
Qed.

Lemma joinpath_safe_name p s :
  safe_name s = true -> pathlib.joinpath p s = Path_ (root p) (parts p ++ [s]).
Proof. intros Hs. unfold pathlib.joinpath. by rewrite (safe_name_Path s Hs). Qed.

Lemma underscore_safe_name s :
  contains_char "/" s = false -> contains_char "_" s = true -> safe_name s = true.
Proof.
  intros Hslash Hunder. unfold safe_name. rewrite Hslash.
  assert (is_empty s = false) as -> by (by destruct s).
  destruct (String.eqb_spec s ".") as [->|_]; [simpl in Hunder; discriminate|].
  destruct (String.eqb_spec s "..") as [->|_]; [simpl in Hunder; discriminate|].
  done.
Qed.

(** The resolved path is the directory with one safe name joined to it. *)
Lemma resolved_path_in_dir a w :
  exists nm, safe_name nm = true /\
    resolved_path a w = pathlib.joinpath (Path (arg_output_dir a)) nm.
Proof.
  unfold resolved_path.
  set (d := Path (arg_output_dir a)).
  set (fn := resolve_filename (arg_url a) (arg_filename a)).
  set (fs1 := (mkdir_parents (fs w) d).2).
  pose proof (resolve_filename_safe (arg_url a) (arg_filename a)) as Hfn. fold fn in Hfn.
  assert (valid_path (pathlib.joinpath d fn) = true) as Hbase
    by apply valid_joinpath, valid_Path.
  destruct (unique_filepath_cases fs1 (pathlib.joinpath d fn) Hbase)
    as [[_ ->]|[_ (k & _ & -> & _)]].
  - by exists fn.
  - exists (pathlib.stem (pathlib.joinpath d fn) +:+ "_" +:+ str_of_int k +:+
            pathlib.suffix (pathlib.joinpath d fn)).
    assert (safe_name (pathlib.stem (pathlib.joinpath d fn) +:+ "_" +:+ str_of_int k +:+
                       pathlib.suffix (pathlib.joinpath d fn)) = true) as Hsafe.
    { apply underscore_safe_name; [by apply candidate_name_no_slash|].
      rewrite !contains_char_append. simpl. by rewrite orb_true_r. }
    split; [done|]. rewrite candidate_eq by done.
    rewrite (joinpath_safe_name d _ Hsafe), (joinpath_safe_name d fn Hfn). simpl.
    by rewrite removelast_last.
Qed.

Lemma os_mkdir_changes fs p fs' k :
  os_mkdir fs p = inr fs' -> kept_or_new_dir fs fs' k.
Proof.
  unfold os_mkdir. destruct (check_parent fs p); [done|].
  destruct (fs_exists fs p) eqn:Hex; [done|]. intros [= <-].
  apply fs_exists_false in Hex as [_ Hnone].
  destruct (decide (k = path_str p)) as [->|Hne].
  - right. by rewrite lookup_insert_eq.
  - left. by rewrite lookup_insert_ne.
Qed.

Lemma kept_or_new_dir_refl fs k : kept_or_new_dir fs fs k.
Proof. by left. Qed.

Lemma kept_or_new_dir_trans fs1 fs2 fs3 k :
  kept_or_new_dir fs1 fs2 k -> kept_or_new_dir fs2 fs3 k -> kept_or_new_dir fs1 fs3 k.
Proof.
  unfold kept_or_new_dir. intros [H12|[H1 H2]] [H23|[H2' H3]].
  - left. congruence.
  - right. split; congruence.
  - right. split; congruence.
  - congruence.
Qed.

Lemma mkdir_rec_changes r rparts fs k :
  kept_or_new_dir fs (mkdir_rec r rparts fs).2 k.
Proof.
  revert fs. induction rparts as [|x rparents IH]; intros fs; cbn [mkdir_rec].
  - destruct (os_mkdir fs (Path_ r (rev []))) as [err|fs'] eqn:Hmk.
    + destruct err; try apply kept_or_new_dir_refl;
        destruct (fs_is_dir fs _); apply kept_or_new_dir_refl.
    + by eapply os_mkdir_changes.
  - destruct (os_mkdir fs (Path_ r (rev (x :: rparents)))) as [err|fs'] eqn:Hmk.
    + destruct err; try (destruct (fs_is_dir fs _); apply kept_or_new_dir_refl).
      specialize (IH fs).
      destruct (mkdir_rec r rparents fs) as [[e|] fs1]; [done|]. cbn [snd] in IH.
      destruct (os_mkdir fs1 (Path_ r (rev (x :: rparents)))) as [err|fs2] eqn:Hmk2.
      * destruct err; try done; by destruct (fs_is_dir fs1 _).
      * cbn [snd]. eapply kept_or_new_dir_trans; [done|]. by eapply os_mkdir_changes.
    + by eapply os_mkdir_changes.
Qed.

Lemma start_changes a e w k : kept_or_new_dir (fs w) (fs (start a e w).2) k.
Proof.
  unfold start. destruct (negb _); [apply kept_or_new_dir_refl|].
  pose proof (mkdir_rec_changes (root (Path (arg_output_dir a)))
                (rev (parts (Path (arg_output_dir a)))) (fs w) k) as Hmk.
  fold (mkdir_parents (fs w) (Path (arg_output_dir a))) in Hmk.
  by destruct (mkdir_parents _ _) as [[[err p]|] fs1].
Qed.

(** A whole download changes no node but its target, new directories aside. *)
Lemma run_changes a e w k :
  k <> path_str (resolved_path a w) ->
  kept_or_new_dir (fs w) (fs (finish (Start a e) w).2) k.
Proof.
  intros Hk. simpl. pose proof (start_changes a e w k) as Hs.
  destruct (start a e w) as [[r|c] w1] eqn:Hstart; [done|].
  pose proof (start_inr_ctx _ _ _ _ _ Hstart) as (_ & Hpath & _).
  pose proof (start_inr _ _ _ _ _ Hstart) as (_ & _ & _ & Hname & _).
  destruct (finish_head_cases c w1 Hname) as (r & w' & -> & Hother & _).
  simpl in *. eapply kept_or_new_dir_trans; [done|]. left. apply Hother. congruence.
Qed.

(** The results of a download that succeeds. *)
Lemma run_success_path a e w r w' :
  finish (Start a e) w = (r, w') -> success r = true ->
  file_path r = path_str (resolved_path a w) /\
  file_name r = pathlib.name (resolved_path a w).
Proof.
  intros Hrun Hsucc.
  destruct (run_cases a e w) as (r0 & w0 & Hrun0 & _ & Hcases).
  rewrite Hrun in Hrun0. injection Hrun0 as <- <-.
  destruct Hcases as [Hfail|((_ & _ & Hp & Hn & _) & _)]; [|done].
  by destruct (failed_by_not_success _ _ Hfail).
Qed.

(** X8. Whatever the URL and whatever name the caller gives, a download
    touches one entry of the output directory: there is a safe name (one
    component, no separator, neither [.] nor [..]) such that every other node
    of the file system is left as it was, or is a directory created where
    there was nothing; and when the download succeeds, that name is the
    reported file name, and the reported path is the output directory joined
    with it. *)
Theorem download_confined (url output_dir : string) (filename : option string)
    (timeout max_size_mb : Z) (e : env) (w : world) :
  exists nm, safe_name nm = true /\
    let target := path_str (pathlib.joinpath (Path output_dir) nm) in
    let '(r, w') :=
      _download_single_file_internal url output_dir filename timeout max_size_mb e w in
    (forall k, k <> target -> kept_or_new_dir (fs w) (fs w') k) /\
    (success r = true -> file_name r = nm /\ file_path r = target).
Proof.
  unfold _download_single_file_internal. set (a := {| arg_url := url |}).
  destruct (resolved_path_in_dir a w) as (nm & Hsafe & Hq). simpl in Hq.
  exists nm. split; [done|]. cbv zeta.
  pose proof (run_changes a e w) as Hch.
  pose proof (run_success_path a e w) as Hsp.
  destruct (finish (Start a e) w) as [r w'] eqn:Hrun. simpl in Hch.
  rewrite Hq in *. split; [done|].
  intros Hsucc. destruct (Hsp r w' eq_refl Hsucc) as [Hp Hn]. split; [|done].
  rewrite Hn. rewrite (joinpath_safe_name _ _ Hsafe). unfold pathlib.name. simpl.
  by rewrite last_last.
Qed.

(** X9. A download never overwrites and never removes what is there: every
    node the file system holds before the call, file or directory, it holds
    unchanged after it, whether the download succeeds or fails. *)
Theorem download_keeps_existing (url output_dir : string) (filename : option string)
    (timeout max_size_mb : Z) (e : env) (w : world) (k : string) (n : node) :
  fs w !! k = Some n ->
  fs (_download_single_file_internal url output_dir filename timeout max_size_mb
        e w).2 !! k = Some n.
Proof.
  intros Hk. unfold _download_single_file_internal. set (a := {| arg_url := url |}).
  destruct (run_cases a e w) as (r & w' & -> & Hframe & _). simpl.
  apply Hframe; [|done]. intros ->.
  assert (fs_exists (mkdir_parents (fs w) (Path (arg_output_dir a))).2
            (resolved_path a w) = false) as Hfree
    by apply unique_filepath_free, valid_joinpath, valid_Path.
  apply fs_exists_false in Hfree as [_ Hnone].
  pose proof (mkdir_rec_preserves (root (Path (arg_output_dir a)))
                (rev (parts (Path (arg_output_dir a)))) (fs w) _ n Hk) as Hkept.
  unfold mkdir_parents in Hnone. congruence.
Qed.

End ConfinementProperties.

(** ** What a download writes *)

Lemma write_at_end content chunk :
  write_at content (length content) chunk = content ++ chunk.
Proof.
  unfold write_at. rewrite take_ge by lia. rewrite Nat.sub_diag. simpl.
  rewrite drop_ge by lia. by rewrite app_nil_r.
Qed.

Lemma fs_write_append fs p content chunk :
  fs !! path_str p = Some (File content) ->
  fs_write fs p (Z.of_nat (length content)) chunk !! path_str p =
    Some (File (content ++ chunk)).
Proof.
  intros Hk. unfold fs_write. rewrite Hk, Nat2Z.id, write_at_end.
  apply lookup_insert_eq.
Qed.

Lemma total_length_cons chunk chunks :
  total_length (chunk :: chunks) = Z.of_nat (length chunk) + total_length chunks.
Proof. unfold total_length. simpl. rewrite length_app. lia. Qed.

Lemma total_length_nonneg chunks : 0 <= total_length chunks.
Proof. unfold total_length. lia. Qed.

(** The running total stays within the limit exactly when the whole body
    does, or there is no chunk at all. *)
Lemma first_excess_None limit written chunks :
  first_excess limit written chunks = None <->
  chunks = [] \/ written + total_length chunks <= limit.
Proof.
  revert written. induction chunks as [|chunk chunks IH]; intros written; simpl.
  - split; auto.
  - rewrite total_length_cons. pose proof (total_length_nonneg chunks) as Hnn.
    destruct (limit <? written + Z.of_nat (length chunk)) eqn:Hlimit.
    + apply Z.ltb_lt in Hlimit. split; [done|]. intros [?|?]; [done|lia].
    + apply Z.ltb_ge in Hlimit. rewrite IH. split.
      * intros [->|?]; right; [|lia]. unfold total_length. simpl. lia.
      * intros [?|?]; [done|]. right. lia.
Qed.

Section ContentProperties.
Context {platform : Platform}.

(** The loop over the chunks when the running total stays within the limit,
    for a coroutine that is the only writer of its file: every chunk is
    appended, and the file is kept also when the stream breaks. *)
Lemma stream_kept c content_type written chunks broken w content :
  parts (c_file_path c) <> [] ->
  fs w !! path_str (c_file_path c) = Some (File content) ->
  written = Z.of_nat (length content) ->
  first_excess (max_size_bytes c) written chunks = None ->
  exists w',
    stream c content_type written chunks broken w =
      (match broken with
       | Some text => failure (c_filename c) text
       | None => {| file_path := path_str (c_file_path c);
                    file_name := c_final_filename c;
                    file_size := written + total_length chunks;
                    content_type := content_type;
                    success := true; error := None |}
       end, w') /\
    log w' = log w /\
    fs w' !! path_str (c_file_path c) = Some (File (content ++ List.concat chunks)) /\
    (forall k, k <> path_str (c_file_path c) -> fs w' !! k = fs w !! k).
Proof.
  intros Hparts. revert written w content.
  induction chunks as [|chunk chunks IH]; intros written w content Hfile Hwritten Hexcess.
  - exists w. simpl. rewrite app_nil_r. split; [|done].
    unfold on_end. destruct broken as [text|]; [done|].
    rewrite fs_exists_lookup, Hfile by done.
    rewrite bool_decide_eq_true_2 by eauto. simpl.
    rewrite (st_size_file _ _ _ content) by done.
    unfold total_length. simpl. by rewrite Z.add_0_r, Hwritten.
  - simpl in Hexcess. cbn [stream]. unfold on_chunk.
    destruct (max_size_bytes c <? written + Z.of_nat (length chunk)) eqn:Hlimit; [done|].
    set (w1 := {| fs := fs_write (fs w) (c_file_path c) written chunk; log := log w |}).
    assert (fs w1 !! path_str (c_file_path c) = Some (File (content ++ chunk))) as Hfile1.
    { simpl. rewrite Hwritten. by apply fs_write_append. }
    destruct (IH (written + Z.of_nat (length chunk)) w1 (content ++ chunk) Hfile1)
      as (w' & Hstream & Hlog & Hfile' & Hother); [rewrite length_app; lia|done|].
    exists w'. rewrite Hstream, total_length_cons, Z.add_assoc.
    split; [done|]. split; [done|]. split.
    + simpl. by rewrite app_assoc.
    + intros k Hk. rewrite Hother by done. by apply fs_write_other.
Qed.

Lemma on_get_inr_status c w content_type w' :
  on_get c w = (inr content_type, w') ->
  exists resp, env_get (c_env c) = GetResponse resp /\
    is_success (status_code resp) = true.
Proof.
  unfold on_get. destruct (env_get (c_env c)) as [text|resp]; [done|].
  destruct (is_success (status_code resp)) eqn:Hstatus; [|done].
  intros _. by exists resp.
Qed.

(** A download that is past the probe and whose [GET] request is answered
    and streamed: what the context holds, and that the rest is the loop. *)
Lemma run_streamed a e w c w1 w2 content_type w3 resp :
  start a e w = (inr c, w1) ->
  on_head c w1 = (inr c, w2) ->
  on_get c w2 = (inr content_type, w3) ->
  env_get e = GetResponse resp ->
  finish (Start a e) w =
    stream c (resp_content_type resp) 0 (body resp) (broken resp) w3 /\
  c_filename c = resolve_filename (arg_url a) (arg_filename a) /\
  c_file_path c = resolved_path a w /\
  c_final_filename c = pathlib.name (resolved_path a w) /\
  max_size_bytes c = arg_max_size_mb a * 1024 * 1024 /\
  c_max_size_mb c = arg_max_size_mb a /\
  parts (resolved_path a w) <> [] /\
  fs w3 !! path_str (resolved_path a w) = Some (File []) /\
  log w3 = log w ++ [HEAD (arg_url a); GET (arg_url a)].
Proof.
  intros Hstart Hhead Hget Hresp.
  pose proof (start_inr _ _ _ _ _ Hstart) as (Henv & Hurl & Hmax & Hname & _ & _ & Hlog1).
  pose proof (start_inr_ctx _ _ _ _ _ Hstart) as (Hfn & Hpath & _).
  pose proof (on_head_inr _ _ _ _ Hhead) as (_ & _ & Hlog2).
  pose proof (on_get_inr _ _ _ _ Hget) as ((resp' & Hresp' & ->) & Hparts & Hfile & _ & Hlog3).
  rewrite Henv, Hresp in Hresp'. injection Hresp' as <-.
  rewrite <- Hpath. repeat split; try done.
  - simpl. rewrite Hstart. unfold finish_head. rewrite Hhead. unfold finish_get.
    by rewrite Hget, Henv, Hresp.
  - unfold max_size_bytes. by rewrite Hmax.
  - rewrite Hlog3, Hlog2, Hlog1, Hurl, <- app_assoc. done.
Qed.

(** A download that succeeds has gone through all the phases. *)
Lemma run_success_inv a e w r w' :
  finish (Start a e) w = (r, w') -> success r = true ->
  exists c w1 w2 content_type w3 resp,
    start a e w = (inr c, w1) /\ on_head c w1 = (inr c, w2) /\
    on_get c w2 = (inr content_type, w3) /\ env_get e = GetResponse resp /\
    is_success (status_code resp) = true.
Proof.
  simpl. intros Hrun Hsucc.
  destruct (start a e w) as [[r0|c] w1] eqn:Hstart.
  { injection Hrun as <- <-. by apply start_inl in Hstart as (_ & fn & text & -> & _). }
  unfold finish_head in Hrun.
  destruct (on_head c w1) as [[r0|c'] w2] eqn:Hhead.
  { injection Hrun as <- <-. by apply on_head_inl in Hhead as (_ & text & -> & _). }
  pose proof (on_head_inr _ _ _ _ Hhead) as (-> & _).
  unfold finish_get in Hrun.
  destruct (on_get c w2) as [[r0|content_type] w3] eqn:Hget.
  { injection Hrun as <- <-. by apply on_get_inl in Hget as (_ & text & -> & _). }
  destruct (on_get_inr_status _ _ _ _ Hget) as (resp & Hresp & Hstatus).
  pose proof (start_inr _ _ _ _ _ Hstart) as (Henv & _).
  exists c, w1, w2, content_type, w3, resp. rewrite <- Henv. done.
Qed.

(** The loop returns a success only if the total never goes over the limit
    and the stream does not break. *)
Lemma stream_success_inv c content_type chunks broken w content r w' :
  parts (c_file_path c) <> [] ->
  fs w !! path_str (c_file_path c) = Some (File content) ->
  stream c content_type 0 chunks broken w = (r, w') -> success r = true ->
  first_excess (max_size_bytes c) 0 chunks = None /\ broken = None.
Proof.
  intros Hparts Hfile Hstream Hsucc.
  destruct (stream_cases c content_type 0 chunks broken w content Hparts Hfile)
    as (r0 & w0 & Hstream0 & _ & _ & Hcases).
  rewrite Hstream in Hstream0. injection Hstream0 as <- <-.
  destruct (first_excess _ _ _) as [d|]; [by destruct Hcases as [-> _]|].
  split; [done|]. destruct Hcases as (content' & _ & Hr).
  destruct broken as [text|]; [by subst r|done].
Qed.

(** X10. A download that succeeds has saved the body as it came: the file at
    the reported path holds the chunks of the answer one after the other,
    the reported size is their total length and the reported content type is
    the header of the answer; the status was a success and the stream did
    not break; and the total is within the limit unless the body came in no
    chunk at all. *)
Theorem download_saves_body (url output_dir : string) (filename : option string)
    (timeout max_size_mb : Z) (e : env) (w : world) (r : DownloadResult) (w' : world) :
  _download_single_file_internal url output_dir filename timeout max_size_mb e w =
    (r, w') ->
  success r = true ->
  exists resp, env_get e = GetResponse resp /\
    is_success (status_code resp) = true /\ broken resp = None /\
    fs w' !! file_path r = Some (File (List.concat (body resp))) /\
    file_size r = total_length (body resp) /\
    content_type r = resp_content_type resp /\
    (body resp = [] \/ total_length (body resp) <= max_size_mb * 1024 * 1024).
Proof.
  unfold _download_single_file_internal. set (a := {| arg_url := url |}).
  intros Hrun Hsucc.
  destruct (run_success_inv a e w r w' Hrun Hsucc)
    as (c & w1 & w2 & ct & w3 & resp & Hstart & Hhead & Hget & Hresp & Hstatus).
  destruct (run_streamed a e w c w1 w2 ct w3 resp Hstart Hhead Hget Hresp)
    as (Hfin & _ & Hpath & _ & Hmax & _ & Hparts & Hfile & _).
  rewrite Hrun in Hfin. symmetry in Hfin. rewrite <- Hpath in Hparts, Hfile.
  destruct (stream_success_inv c _ _ _ w3 [] r w' Hparts Hfile Hfin Hsucc)
    as [Hexcess Hbroken].
  destruct (stream_kept c (resp_content_type resp) 0 (body resp) (broken resp) w3 []
              Hparts Hfile eq_refl Hexcess) as (w0 & Hstream & _ & Hfile' & _).
  rewrite Hfin, Hbroken in Hstream. injection Hstream as -> ->.
  exists resp. simpl. repeat split; try done.
  apply first_excess_None in Hexcess. rewrite Hmax in Hexcess. simpl in Hexcess.
  destruct Hexcess; [by left|right; lia].
Qed.

(** X11. Once the [GET] request is answered with a success status and the
    file is opened, the download succeeds exactly when the stream does not
    break and the body is within the limit, a body of exactly the limit
    included, or comes in no chunk at all. *)
Theorem download_succeeds_iff (url output_dir : string) (filename : option string)
    (timeout max_size_mb : Z) (e : env) (w : world) (c : ctx) (w1 w2 w3 : world)
    (ct : option string) (resp : response) :
  let a := {| arg_url := url; arg_output_dir := output_dir; arg_filename := filename;
              arg_timeout := timeout; arg_max_size_mb := max_size_mb |} in
  start a e w = (inr c, w1) ->
  on_head c w1 = (inr c, w2) ->
  on_get c w2 = (inr ct, w3) ->
  env_get e = GetResponse resp ->
  success (_download_single_file_internal url output_dir filename timeout max_size_mb
             e w).1 = true <->
  broken resp = None /\
  (body resp = [] \/ total_length (body resp) <= max_size_mb * 1024 * 1024).
Proof.
  intros a Hstart Hhead Hget Hresp.
  unfold _download_single_file_internal. fold a.
  destruct (run_streamed a e w c w1 w2 ct w3 resp Hstart Hhead Hget Hresp)
    as (Hfin & _ & Hpath & _ & Hmax & _ & Hparts & Hfile & _).
  rewrite <- Hpath in Hparts, Hfile. rewrite Hfin.
  rewrite <- (first_excess_None (max_size_mb * 1024 * 1024) 0).
  change (max_size_mb * 1024 * 1024) with (arg_max_size_mb a * 1024 * 1024).
  rewrite <- Hmax. split.
  - intros Hsucc.
    destruct (stream c (resp_content_type resp) 0 (body resp) (broken resp) w3)
      as [r w'] eqn:Hstream.
    destruct (stream_success_inv c _ _ _ w3 [] r w' Hparts Hfile Hstream Hsucc). done.
  - intros [Hbroken Hexcess].
    destruct (stream_kept c (resp_content_type resp) 0 (body resp) (broken resp) w3 []
                Hparts Hfile eq_refl Hexcess) as (w0 & -> & _).
    by rewrite Hbroken.
Qed.

(** X12. When the stream breaks after chunks within the limit, the download
    fails with the text of the exception, and the file stays where it is,
    holding the chunks that came: nothing removes it. *)
Theorem broken_stream_leaves_file (url output_dir : string) (filename : option string)
    (timeout max_size_mb : Z) (e : env) (w : world) (c : ctx) (w1 w2 w3 : world)
    (ct : option string) (resp : response) (text : string) :
  let a := {| arg_url := url; arg_output_dir := output_dir; arg_filename := filename;
              arg_timeout := timeout; arg_max_size_mb := max_size_mb |} in
  start a e w = (inr c, w1) ->
  on_head c w1 = (inr c, w2) ->
  on_get c w2 = (inr ct, w3) ->
  env_get e = GetResponse resp ->
  broken resp = Some text ->
  body resp = [] \/ total_length (body resp) <= max_size_mb * 1024 * 1024 ->
  exists w',
    _download_single_file_internal url output_dir filename timeout max_size_mb e w =
      (failure (resolve_filename url filename) text, w') /\
    fs w' !! path_str (resolved_path a w) = Some (File (List.concat (body resp))).
Proof.
  intros a Hstart Hhead Hget Hresp Hbroken Hwithin.
  unfold _download_single_file_internal. fold a.
  destruct (run_streamed a e w c w1 w2 ct w3 resp Hstart Hhead Hget Hresp)
    as (Hfin & Hfn & Hpath & _ & Hmax & _ & Hparts & Hfile & _).
  rewrite <- Hpath in *. rewrite Hfin.
  assert (first_excess (max_size_bytes c) 0 (body resp) = None) as Hexcess.
  { apply first_excess_None. rewrite Hmax. simpl. destruct Hwithin; [by left|right; lia]. }
  destruct (stream_kept c (resp_content_type resp) 0 (body resp) (broken resp) w3 []
              Hparts Hfile eq_refl Hexcess) as (w0 & -> & _ & Hfile' & _).
  exists w0. by rewrite Hbroken, Hfn.
Qed.

End ContentProperties.

(** ** The requests of a download *)

Lemma os_mkdir_is_dir fs p fs' : os_mkdir fs p = inr fs' -> fs_is_dir fs' p = true.
Proof.
  unfold os_mkdir. destruct (check_parent fs p); [done|].
  destruct (fs_exists fs p); [done|]. intros [= <-].
  unfold fs_is_dir. destruct (parts p); [done|]. by rewrite lookup_insert_eq.
Qed.

(** [mkdir(parents=True, exist_ok=True)] returns only when the path is a
    directory. *)
Lemma mkdir_rec_is_dir r rparts fs fs' :
  mkdir_rec r rparts fs = (None, fs') -> fs_is_dir fs' (Path_ r (rev rparts)) = true.
Proof.
  destruct rparts as [|x rparents]; cbn [mkdir_rec].
  - destruct (os_mkdir fs (Path_ r (rev []))) as [err|fs0] eqn:Hmk.
    + destruct err; try done;
        destruct (fs_is_dir fs (Path_ r (rev []))) eqn:Hdir; try done; by intros [= <-].
    + intros [= <-]. by eapply os_mkdir_is_dir.
  - destruct (os_mkdir fs (Path_ r (rev (x :: rparents)))) as [err|fs0] eqn:Hmk.
    + destruct err;
        try (destruct (fs_is_dir fs (Path_ r (rev (x :: rparents)))) eqn:Hdir;
             try done; by intros [= <-]).
      destruct (mkdir_rec r rparents fs) as [[e|] fs1]; [done|].
      destruct (os_mkdir fs1 (Path_ r (rev (x :: rparents)))) as [err|fs2] eqn:Hmk2.
      * destruct err; try done;
          destruct (fs_is_dir fs1 (Path_ r (rev (x :: rparents)))) eqn:Hdir;
          try done; by intros [= <-].
      * intros [= <-]. by eapply os_mkdir_is_dir.
    + intros [= <-]. by eapply os_mkdir_is_dir.
Qed.

Lemma fs_is_dir_kept fs fs' p :
  (forall k n, fs !! k = Some n -> fs' !! k = Some n) ->
  fs_is_dir fs p = true -> fs_is_dir fs' p = true.
Proof.
  intros Hkept. unfold fs_is_dir. destruct (parts p); [done|].
  destruct (fs !! path_str p) as [[|]|] eqn:Hk; try done.
  by rewrite (Hkept _ _ Hk).
Qed.

Section RequestProperties.
Context {platform : Platform}.

(** The body of a file is streamed with the fields of the context other than
    the network. *)
Lemma stream_ctx url fn q final max e e' ct written chunks broken w :
  stream {| c_url := url; c_filename := fn; c_file_path := q; c_final_filename := final;
            c_max_size_mb := max; c_env := e |} ct written chunks broken w =
  stream {| c_url := url; c_filename := fn; c_file_path := q; c_final_filename := final;
            c_max_size_mb := max; c_env := e' |} ct written chunks broken w.
Proof.
  revert written w. induction chunks as [|chunk chunks IH]; intros written w.
  - done.
  - cbn [stream]. unfold on_chunk, max_size_bytes. cbn [c_max_size_mb c_file_path c_filename].
    destruct (_ <? _); [|apply IH].
    destruct (fs_exists _ _); [|done]. by destruct (fs_unlink _ _).
Qed.

Lemma start_free a e w c w1 :
  start a e w = (inr c, w1) -> fs w1 !! path_str (resolved_path a w) = None.
Proof.
  intros Hstart.
  pose proof (start_inr _ _ _ _ _ Hstart) as (_ & _ & _ & _ & _ & Hfree & _).
  pose proof (start_inr_ctx _ _ _ _ _ Hstart) as (_ & Hpath & _).
  rewrite Hpath in Hfree. by apply fs_exists_false in Hfree as [_ ?].
Qed.

Lemma start_is_dir a e w c w1 :
  start a e w = (inr c, w1) -> fs_is_dir (fs w1) (Path (arg_output_dir a)) = true.
Proof.
  unfold start. destruct (negb _); [done|].
  destruct (mkdir_parents _ _) as [[[err p]|] fs1] eqn:Hmk; [done|].
  intros [= <- <-]. cbn [fs]. unfold mkdir_parents in Hmk.
  apply mkdir_rec_is_dir in Hmk. rewrite rev_involutive in Hmk.
  by destruct (Path (arg_output_dir a)).
Qed.

Lemma finish_head_keeps c w r w' k n :
  c_final_filename c = pathlib.name (c_file_path c) ->
  fs w !! path_str (c_file_path c) = None ->
  finish_head c w = (r, w') -> fs w !! k = Some n -> fs w' !! k = Some n.
Proof.
  intros Hname Hfree Hrun Hk.
  destruct (finish_head_cases c w Hname) as (r0 & w0 & Hrun0 & Hother & _).
  rewrite Hrun in Hrun0. injection Hrun0 as <- <-.
  rewrite Hother; [done|]. intros ->. congruence.
Qed.

Lemma run_log a e w :
  let '(r, w') := finish (Start a e) w in
  (log w' = log w \/ log w' = log w ++ [HEAD (arg_url a)] \/
   log w' = log w ++ [HEAD (arg_url a); GET (arg_url a)]) /\
  (success r = true -> log w' = log w ++ [HEAD (arg_url a); GET (arg_url a)]).
Proof.
  cbn [finish]. destruct (start a e w) as [[r0|c] w1] eqn:Hstart.
  - apply start_inl in Hstart as (Hlog & fn & text & -> & _). split; [by left|done].
  - pose proof (start_inr _ _ _ _ _ Hstart) as (_ & Hurl & _ & Hname & _ & _ & Hlog1).
    unfold finish_head. destruct (on_head c w1) as [[r0|c'] w2] eqn:Hhead.
    + apply on_head_inl in Hhead as (-> & text & -> & _). split; [right; by left|done].
    + apply on_head_inr in Hhead as (-> & _ & Hlog2).
      destruct (finish_get_cases c w2 Hname) as (r & w' & -> & Hlog3 & _).
      rewrite Hlog3, Hlog2, Hlog1, Hurl, <- app_assoc. split; [right; by right|done].
Qed.

(** X13. When the [GET] request raises, or is answered with a status outside
    [200..299], the download fails with the text of that exception; both
    requests have been sent, and no file has been created at the resolved
    path. *)
Theorem get_failure_reported (url output_dir : string) (filename : option string)
    (timeout max_size_mb : Z) (e : env) (w : world) (c : ctx) (w1 w2 : world)
    (text : string) :
  let a := {| arg_url := url; arg_output_dir := output_dir; arg_filename := filename;
              arg_timeout := timeout; arg_max_size_mb := max_size_mb |} in
  start a e w = (inr c, w1) ->
  on_head c w1 = (inr c, w2) ->
  get_failure e = Some text ->
  _download_single_file_internal url output_dir filename timeout max_size_mb e w =
    (failure (resolve_filename url filename) text, w2) /\
  fs w2 !! path_str (resolved_path a w) = None /\
  log w2 = log w ++ [HEAD url; GET url].
Proof.
  intros a Hstart Hhead Hfail.
  pose proof (start_inr _ _ _ _ _ Hstart) as (Henv & Hurl & _ & _ & _ & _ & Hlog1).
  pose proof (start_inr_ctx _ _ _ _ _ Hstart) as (Hfn & _).
  pose proof (on_head_inr _ _ _ _ Hhead) as (_ & Hfs & Hlog2).
  split; [|split].
  - unfold _download_single_file_internal. fold a. cbn [finish]. rewrite Hstart.
    unfold finish_head. rewrite Hhead. unfold finish_get, on_get. rewrite Henv.
    unfold get_failure in Hfail. destruct (env_get e) as [t|resp].
    + injection Hfail as ->. by rewrite Hfn.
    + destruct (is_success _); [done|]. injection Hfail as <-. cbn [negb]. by rewrite Hfn.
  - rewrite Hfs. by eapply start_free.
  - rewrite Hlog2, Hlog1, Hurl, <- app_assoc. done.
Qed.

(** X14. A download sends nothing, or one [HEAD] request, or one [HEAD] and
    then one [GET] request, each for the URL it was given: no request is
    repeated. A download that succeeds has sent both. *)
Theorem requests_sent (url output_dir : string) (filename : option string)
    (timeout max_size_mb : Z) (e : env) (w : world) :
  let '(r, w') :=
    _download_single_file_internal url output_dir filename timeout max_size_mb e w in
  (log w' = log w \/ log w' = log w ++ [HEAD url] \/
   log w' = log w ++ [HEAD url; GET url]) /\
  (success r = true -> log w' = log w ++ [HEAD url; GET url]).
Proof.
  unfold _download_single_file_internal.
  exact (run_log {| arg_url := url; arg_output_dir := output_dir;
                    arg_filename := filename; arg_timeout := timeout;
                    arg_max_size_mb := max_size_mb |} e w).
Qed.


(** X16. When the probe is answered with a [Content-Length] that [int] does
    not read, the download fails with the text of that error, after the
    [HEAD] request alone. *)
Theorem content_length_malformed (url output_dir : string) (filename : option string)
    (timeout max_size_mb : Z) (e : env) (w : world) (c : ctx) (w1 : world)
    (content_length text : string) :
  let a := {| arg_url := url; arg_output_dir := output_dir; arg_filename := filename;
              arg_timeout := timeout; arg_max_size_mb := max_size_mb |} in
  start a e w = (inr c, w1) ->
  env_head e = HeadResponse (Some content_length) ->
  is_empty content_length = false ->
  int_of_str content_length = inl text ->
  _download_single_file_internal url output_dir filename timeout max_size_mb e w =
    (failure (resolve_filename url filename) text, w1) /\
  log w1 = log w ++ [HEAD url].
Proof.
  intros a Hstart Hhead Hne Hint.
  pose proof (start_inr _ _ _ _ _ Hstart) as (Henv & _ & _ & _ & _ & _ & Hlog1).
  pose proof (start_inr_ctx _ _ _ _ _ Hstart) as (Hfn & _).
  split; [|done].
  unfold _download_single_file_internal. fold a. cbn [finish]. rewrite Hstart.
  unfold finish_head, on_head. by rewrite Henv, Hhead, Hne, Hint, Hfn.
Qed.

(** X17. A [Content-Length] that is empty, or that is within the limit, the
    limit itself included, has no further effect: the download returns the
    same result and leaves the same world as when the probe is answered
    without that header. The length of the body is never compared with it. *)
Theorem content_length_within_limit (url output_dir : string) (filename : option string)
    (timeout max_size_mb : Z) (e : env) (w : world) (content_length : string) :
  env_head e = HeadResponse (Some content_length) ->
  (is_empty content_length = true \/
   exists size, int_of_str content_length = inr size /\
     size <= max_size_mb * 1024 * 1024) ->
  _download_single_file_internal url output_dir filename timeout max_size_mb e w =
  _download_single_file_internal url output_dir filename timeout max_size_mb
    {| env_head := HeadResponse None; env_get := env_get e |} w.
Proof.
  intros Hhead Hcl. unfold _download_single_file_internal. cbn [finish].
  unfold start. cbn [arg_url arg_output_dir arg_filename arg_max_size_mb].
  destruct (negb _); [done|].
  destruct (mkdir_parents _ _) as [[[err p]|] fs1]; [done|].
  unfold finish_head, on_head. cbn [c_env env_head c_url c_filename]. rewrite Hhead.
  assert ((if is_empty content_length then true
           else match int_of_str content_length with
                | inl _ => false
                | inr size => negb (max_size_mb * 1024 * 1024 <? size)
                end) = true) as Hpass.
  { destruct Hcl as [->|(size & -> & Hsize)]; [done|].
    destruct (is_empty content_length); [done|].
    apply Z.ltb_ge in Hsize. by rewrite Hsize. }
  unfold max_size_bytes. cbn [c_max_size_mb].
  destruct (is_empty content_length).
  - unfold finish_get, on_get. cbn [c_env env_get c_filename c_file_path].
    destruct (env_get e) as [t|resp]; [done|]. destruct (negb _); [done|].
    destruct (open_wb _ _); [done|]. apply stream_ctx.
  - destruct (int_of_str content_length) as [t|size]; [discriminate Hpass|].
    destruct (_ <? size); [simpl in Hpass; discriminate Hpass|]. clear Hpass.
    unfold finish_get, on_get. cbn [c_env env_get c_filename c_file_path].
    destruct (env_get e) as [t|resp]; [done|]. destruct (negb _); [done|].
    destruct (open_wb _ _); [done|]. apply stream_ctx.
Qed.

(** X18. Whenever a download has sent a request, and so whenever it
    succeeds, the output directory exists as a directory when it returns. *)
Theorem output_dir_created (url output_dir : string) (filename : option string)
    (timeout max_size_mb : Z) (e : env) (w : world) (r : DownloadResult) (w' : world) :
  _download_single_file_internal url output_dir filename timeout max_size_mb e w =
    (r, w') ->
  log w' <> log w \/ success r = true ->
  fs_is_dir (fs w') (Path output_dir) = true.
Proof.
  unfold _download_single_file_internal. set (a := {| arg_url := url |}).
  cbn [finish]. destruct (start a e w) as [[r0|c] w1] eqn:Hstart.
  - intros [= <- <-]. apply start_inl in Hstart as (Hlog & fn & text & -> & _).
    by intros [?|?].
  - intros Hrun _.
    pose proof (start_inr _ _ _ _ _ Hstart) as (_ & _ & _ & Hname & _ & _ & _).
    pose proof (start_inr_ctx _ _ _ _ _ Hstart) as (_ & Hpath & _).
    pose proof (start_free _ _ _ _ _ Hstart) as Hfree. rewrite <- Hpath in Hfree.
    apply (fs_is_dir_kept (fs w1)).
    + intros k n. by apply (finish_head_keeps c w1 r w').
    + exact (start_is_dir a e w c w1 Hstart).
Qed.

(** X19. When the output directory names a regular file in a directory, a
    download of a well-formed URL fails with the text of the
    [FileExistsError] for that path, before any request is sent, and leaves
    the world as it was. *)
Theorem output_dir_is_file (url output_dir : string) (filename : option string)
    (timeout max_size_mb : Z) (e : env) (w : world) (content : list byte) :
  startswith "http://" url || startswith "https://" url = true ->
  parts (Path output_dir) <> [] ->
  fs w !! path_str (Path output_dir) = Some (File content) ->
  fs_is_dir (fs w) (pathlib.parent (Path output_dir)) = true ->
  _download_single_file_internal url output_dir filename timeout max_size_mb e w =
    (failure (default "" filename) (strerror EEXIST (Path output_dir)), w).
Proof.
  intros Hurl Hparts Hfile Hparent.
  unfold _download_single_file_internal. cbn [finish]. unfold start.
  cbn [arg_url arg_output_dir arg_filename]. rewrite Hurl. cbn [negb].
  assert (os_mkdir (fs w) (Path output_dir) = inl EEXIST) as Hmk.
  { unfold os_mkdir, check_parent. rewrite Hparent.
    assert (fs_exists (fs w) (pathlib.parent (Path output_dir)) = true) as ->.
    { unfold fs_is_dir in Hparent. unfold fs_exists.
      destruct (parts (pathlib.parent (Path output_dir))); [done|].
      destruct (fs w !! path_str (pathlib.parent (Path output_dir))); [|done].
      by apply bool_decide_eq_true_2. }
    cbn [negb]. rewrite fs_exists_lookup, Hfile by done.
    by rewrite bool_decide_eq_true_2 by eauto. }
  assert (fs_is_dir (fs w) (Path output_dir) = false) as Hdir.
  { unfold fs_is_dir. rewrite Hfile. by destruct (parts (Path output_dir)). }
  assert (mkdir_parents (fs w) (Path output_dir) =
            (Some (EEXIST, Path output_dir), fs w)) as ->.
  { unfold mkdir_parents.
    assert (Path_ (root (Path output_dir)) (rev (rev (parts (Path output_dir)))) =
              Path output_dir) as Hp.
    { rewrite rev_involutive. by destruct (Path output_dir). }
    destruct (rev (parts (Path output_dir))) as [|x rparents]; cbn [mkdir_rec];
      rewrite Hp, Hmk, Hdir; done. }
  by destruct w.
Qed.

End RequestProperties.

(** ** Batches and single downloads *)

Section BatchCompositionProperties.
Context {platform : Platform}.

(** Running a coroutine to its next suspension point and then to its end is
    running it to its end. *)
Lemma finish_step t w : finish (step t w).1 (step t w).2 = finish t w.
Proof.
  destruct t as [a e|c|c|c ct d chunks broken|r]; cbn [step finish].
  - by destruct (start a e w) as [[r|c] w'].
  - unfold finish_head. by destruct (on_head c w) as [[r|c'] w'].
  - unfold finish_get. destruct (on_get c w) as [[r|ct] w']; [done|].
    cbn [fst snd]. unfold stream_of. by destruct (env_get (c_env c)).
  - destruct chunks as [|chunk chunks]; cbn [stream].
    + by destruct (on_end c ct broken w).
    + by destruct (on_chunk c d chunk w) as [[r|d'] w'].
  - done.
Qed.

Lemma interleave_one sched t w :
  exists t' w', interleave sched [t] w = ([t'], w') /\ finish t' w' = finish t w.
Proof.
  revert t w. induction sched as [|i sched IH]; intros t w; cbn [interleave].
  - by exists t, w.
  - unfold step_at. destruct i as [|i]; cbn.
    + pose proof (finish_step t w) as Hfs. destruct (step t w) as [t1 w1].
      cbn [fst snd] in Hfs. destruct (IH t1 w1) as (t' & w' & Hrun & Hfin).
      exists t', w'. split; [done|]. by rewrite Hfin.
    + apply IH.
Qed.

Lemma returns_done_inv r0 r : returns (Done r0) r -> r = r0.
Proof.
  intros Hret. remember (Done r0) as t eqn:Ht.
  induction Hret as [r|t w r Hret IH]; [congruence|]. subst t. by apply IH.
Qed.

Lemma returns_invalid a e r :
  startswith "http://" (arg_url a) = false ->
  startswith "https://" (arg_url a) = false ->
  returns (Start a e) r ->
  r = failure (default "" (arg_filename a))
        "Invalid URL format. URL must start with http:// or https://".
Proof.
  intros H1 H2 Hret. inversion Hret as [|t w r' Hstep]; subst.
  cbn [step] in Hstep. rewrite start_invalid in Hstep by done.
  by apply returns_done_inv in Hstep.
Qed.

(** X20. A batch of one URL is the single download of that URL without a
    file name, whatever the schedule: the same result, as the only one of the
    response and counted once, and the same world. *)
Theorem batch_of_one (url : string) (output_dir : option string)
    (timeout max_size_mb : Z) (net : nat -> env) (sched : list nat) (w : world) :
  download_files [url] output_dir timeout max_size_mb net sched w =
  let '(r, w') :=
    download_single_file url output_dir None timeout max_size_mb (net 0%nat) w in
  ({| results := [r];
      success_count := if success r then 1 else 0;
      failed_count := if success r then 0 else 1 |}, w').
Proof.
  unfold download_files, download_single_file, _download_single_file_internal, gather.
  cbn [imap].
  destruct (interleave_one sched
              (Start {| arg_url := url;
                        arg_output_dir := default (path_str DEFAULT_DOWNLOAD_DIR) output_dir;
                        arg_filename := None; arg_timeout := timeout;
                        arg_max_size_mb := max_size_mb |} (net 0%nat)) w)
    as (t' & w1 & -> & Hfin).
  cbn [finish_all]. rewrite Hfin.
  destruct (finish _ w) as [r w']. cbn. by destruct (success r).
Qed.

(** X21. In a batch, under every schedule, the result at the position of a
    URL that does not start with [http://] or [https://] is the failure with
    the text about the URL format and an empty file name. *)
Theorem batch_rejects_invalid_urls (urls : list string) (output_dir : option string)
    (timeout max_size_mb : Z) (net : nat -> env) (sched : list nat) (w : world)
    (j : nat) (url : string) :
  urls !! j = Some url ->
  startswith "http://" url = false ->
  startswith "https://" url = false ->
  results (download_files urls output_dir timeout max_size_mb net sched w).1 !! j =
    Some (failure "" "Invalid URL format. URL must start with http:// or https://").
Proof.
  intros Hj H1 H2. unfold download_files.
  set (dir := default (path_str DEFAULT_DOWNLOAD_DIR) output_dir).
  set (ts := imap _ urls).
  assert (ts !! j = Some (Start (batch_args url dir timeout max_size_mb) (net j))) as Ht.
  { unfold ts. by rewrite list_lookup_imap, Hj. }
  destruct (gather_lookup sched ts w j _ Ht) as (r & Hr & Hret).
  apply returns_invalid in Hret; [|done|done]. subst r.
  destruct (gather sched ts w) as [rs w']. done.
Qed.

End BatchCompositionProperties.

(** ** Two downloads of a batch under one name *)

Lemma is_dir_exists fs p : fs_is_dir fs p = true -> fs_exists fs p = true.
Proof.
  unfold fs_is_dir, fs_exists. destruct (parts p); [done|].
  destruct (fs !! path_str p); [|done]. intros _. by apply bool_decide_eq_true_2.
Qed.

(** [mkdir(parents=True, exist_ok=True)] on a directory that exists, in a
    directory, changes nothing. *)
Lemma mkdir_existing fs p :
  fs_is_dir fs p = true -> fs_is_dir fs (pathlib.parent p) = true ->
  mkdir_parents fs p = (None, fs).
Proof.
  intros Hdir Hparent. unfold mkdir_parents.
  assert (os_mkdir fs p = inl EEXIST) as Hmk.
  { unfold os_mkdir, check_parent.
    rewrite Hparent, (is_dir_exists _ _ Hparent). cbn [negb].
    by rewrite (is_dir_exists _ _ Hdir). }
  assert (Path_ (root p) (rev (rev (parts p))) = p) as Hp.
  { rewrite rev_involutive. by destruct p. }
  destruct (rev (parts p)) as [|x rparents]; cbn [mkdir_rec]; rewrite Hp, Hmk, Hdir; done.
Qed.

Section SharedTargetProperties.
Context {platform : Platform}.

(** A coroutine keeps its target until it returns, and a success reports
    the target. *)
Lemma step_target t w k :
  task_target t = Some k ->
  task_target (step t w).1 = Some k \/
  exists r, (step t w).1 = Done r /\ (success r = true -> file_path r = k).
Proof.
  destruct t as [a e|c|c|c ct d chunks broken|r]; cbn [task_target]; try done;
    intros [= <-]; cbn [step].
  - destruct (on_head c w) as [[r|c'] w'] eqn:Hhead; cbn [fst].
    + right. exists r. split; [done|].
      by apply on_head_inl in Hhead as (_ & text & -> & _).
    + left. by apply on_head_inr in Hhead as (-> & _).
  - destruct (on_get c w) as [[r|ct] w'] eqn:Hget; cbn [fst].
    + right. exists r. split; [done|].
      by apply on_get_inl in Hget as (_ & text & -> & _).
    + left. unfold stream_of. by destruct (env_get (c_env c)).
  - destruct chunks as [|chunk chunks].
    + right. pose proof (on_end_cases c ct broken w) as Hend. cbv zeta in Hend.
      destruct (on_end c ct broken w) as [r w']. cbn [fst] in *.
      exists r. split; [done|].
      by destruct Hend as [(_ & _ & _ & Hp & _)|(text & -> & _)].
    + destruct (on_chunk c d chunk w) as [[r|d'] w'] eqn:Hc; cbn [fst].
      * right. exists r. split; [done|].
        by apply on_chunk_inl in Hc as (_ & _ & _ & text & -> & _).
      * by left.
Qed.

Lemma returns_target t r k :
  returns t r -> task_target t = Some k -> success r = true -> file_path r = k.
Proof.
  induction 1 as [r|t w r Hret IH]; [done|]. intros Ht Hs.
  destruct (step_target t w k Ht) as [Ht'|(r' & Hdone & Hp)].
  - by apply IH.
  - rewrite Hdone in Hret. apply returns_done_inv in Hret as ->. by apply Hp.
Qed.

(** The first step of a download into a directory that exists. *)
Lemma step_start_existing a e w :
  fs_is_dir (fs w) (Path (arg_output_dir a)) = true ->
  fs_is_dir (fs w) (pathlib.parent (Path (arg_output_dir a))) = true ->
  exists t,
    step (Start a e) w = (t, {| fs := fs w; log := (step (Start a e) w).2.(log) |}) /\
    ((exists r, t = Done r /\ success r = false) \/
     task_target t =
       Some (path_str
               (_get_unique_filepath (fs w)
                  (pathlib.joinpath (Path (arg_output_dir a))
                     (resolve_filename (arg_url a) (arg_filename a)))))).
Proof.
  intros Hdir Hparent. cbn [step]. unfold start.
  destruct (negb _).
  - eexists. split; [by destruct w|]. left. by eexists.
  - rewrite (mkdir_existing _ _ Hdir Hparent). eexists. split; [done|]. by right.
Qed.

(** X22. Two downloads of one batch can be saved under one name. When the
    output directory exists and the event loop starts the coroutines of a
    batch of the same URL twice one after the other, as [gather] does, both
    resolve their name before either creates its file: whenever both
    downloads succeed, they report the same path, whatever the order in which
    they run on. *)
Theorem batch_same_name_shares_path (url output_dir : string) (timeout max_size_mb : Z)
    (net : nat -> env) (rest : list nat) (w : world) (r0 r1 : DownloadResult) :
  fs_is_dir (fs w) (Path output_dir) = true ->
  fs_is_dir (fs w) (pathlib.parent (Path output_dir)) = true ->
  results (download_files [url; url] (Some output_dir) timeout max_size_mb net
             (0 :: 1 :: rest)%nat w).1 = [r0; r1] ->
  success r0 = true -> success r1 = true ->
  file_path r0 = file_path r1.
Proof.
  intros Hdir Hparent. unfold download_files.
  set (a := batch_args url output_dir timeout max_size_mb).
  change (imap _ [url; url]) with [Start a (net 0%nat); Start a (net 1%nat)].
  destruct (step_start_existing a (net 0%nat) w Hdir Hparent) as (t0 & Hstep0 & Ht0).
  set (w1 := {| fs := fs w; log := log (step (Start a (net 0%nat)) w).2 |}) in *.
  destruct (step_start_existing a (net 1%nat) w1 Hdir Hparent) as (t1 & Hstep1 & Ht1).
  set (w2 := {| fs := fs w1; log := log (step (Start a (net 1%nat)) w1).2 |}) in *.
  assert (gather (0 :: 1 :: rest)%nat [Start a (net 0%nat); Start a (net 1%nat)] w =
            gather rest [t0; t1] w2) as ->.
  { unfold gather. cbn [interleave]. unfold step_at.
    change ([Start a (net 0%nat); Start a (net 1%nat)] !! 0%nat)
      with (Some (Start a (net 0%nat))).
    cbv beta iota. rewrite Hstep0. cbv beta iota.
    change (<[0%nat := t0]> [Start a (net 0%nat); Start a (net 1%nat)])
      with [t0; Start a (net 1%nat)].
    change ([t0; Start a (net 1%nat)] !! 1%nat) with (Some (Start a (net 1%nat))).
    cbv beta iota. rewrite Hstep1. done. }
  destruct (gather_lookup rest [t0; t1] w2 0 t0 eq_refl) as (r0' & Hr0 & Hret0).
  destruct (gather_lookup rest [t0; t1] w2 1 t1 eq_refl) as (r1' & Hr1 & Hret1).
  destruct (gather rest [t0; t1] w2) as [rs w']. cbn [fst results] in *.
  intros -> Hs0 Hs1. injection Hr0 as <-. injection Hr1 as <-.
  destruct Ht0 as [(r & -> & Hfail)|Ht0].
  { apply returns_done_inv in Hret0. congruence. }
  destruct Ht1 as [(r & -> & Hfail)|Ht1].
  { apply returns_done_inv in Hret1. congruence. }
  rewrite (returns_target _ _ _ Hret0 Ht0 Hs0).
  by rewrite (returns_target _ _ _ Hret1 Ht1 Hs1).
Qed.

End SharedTargetProperties.

(** ** The properties at worked inputs *)

(** X2 at [report.pdf]. *)
Lemma sanitize_clean_unchanged_witness : _sanitize_filename "report.pdf" = "report.pdf".
Proof. apply sanitize_clean_unchanged. vm_compute. reflexivity. Defined.

(** X3 at a name of 300 letters with the extension [.txt]. *)
Lemma sanitize_cut_length_witness :
  let filename := repeat_char "a" 300 +:+ ".txt" in
  py_len (_sanitize_filename filename) = 255 /\
  exists kept,
    _sanitize_filename filename =
      kept +:+ pathlib.suffix (Path (stripped_name filename)) /\
    kept = take_str (String.length kept) (stripped_name filename).
Proof.
  intros filename.
  assert (255 < py_len (stripped_name filename)) as Hlong by (vm_compute; reflexivity).
  assert (py_len (pathlib.suffix (Path (stripped_name filename))) <= 255) as Hext
    by (vm_compute; intros H; discriminate H).
  exact (sanitize_cut_length filename Hlong Hext).
Defined.

(** X4 at a name with a colon, and dots and spaces around it. *)
Lemma sanitize_uncut_stable_witness :
  _sanitize_filename " .a:b.txt. " = "a_b.txt" /\
  _sanitize_filename (_sanitize_filename " .a:b.txt. ") = _sanitize_filename " .a:b.txt. ".
Proof.
  assert (py_len " .a:b.txt. " <= 255) as Hlen by (vm_compute; intros H; discriminate H).
  destruct (sanitize_uncut_stable " .a:b.txt. " Hlen) as (_ & _ & _ & Hstable).
  split; [vm_compute; reflexivity|exact Hstable].
Defined.

(** X5 at [data.json], taken. *)
Lemma unique_filepath_keeps_suffix_witness :
  let q := _get_unique_filepath (fs data_json_world) (Path "/tmp/t/data.json") in
  pathlib.suffix q = ".json" /\
  exists k, 1 <= k /\ pathlib.stem q = "data" +:+ "_" +:+ str_of_int k.
Proof.
  intros q.
  assert (valid_path (Path "/tmp/t/data.json") = true) as Hvalid
    by (vm_compute; reflexivity).
  assert (ends_with_any is_dot (pathlib.name (Path "/tmp/t/data.json")) = false) as Hend
    by (vm_compute; reflexivity).
  assert (fs_exists (fs data_json_world) (Path "/tmp/t/data.json") = true) as Hex
    by (vm_compute; reflexivity).
  destruct (unique_filepath_keeps_suffix (fs data_json_world) (Path "/tmp/t/data.json")
              Hvalid Hend) as (Hsuffix & _ & Hstem).
  split; [exact Hsuffix|exact (Hstem Hex)].
Defined.

(** X6 at the URL of the examples. *)
Lemma extract_clean_name_witness :
  _extract_filename_from_url (platform := reference_platform) example_url = "data.json".
Proof.
  exact (extract_clean_name (platform := reference_platform) example_url "/data.json" ""
           eq_refl eq_refl eq_refl).
Defined.

(** X9 for a file [data.json] that is there: the download leaves it. *)
Lemma download_keeps_existing_witness :
  fs (_download_single_file_internal (platform := reference_platform) example_url
        "/tmp/t" None 60 500 (serves 40) data_json_world).2 !! "/tmp/t/data.json" =
    Some (File [x20]).
Proof. apply download_keeps_existing. vm_compute. reflexivity. Defined.

(** X10 at the download of the examples. *)
Lemma download_saves_body_witness :
  let run := _download_single_file_internal (platform := reference_platform) example_url
               "/tmp/t" None 60 500 (serves 40) empty_world in
  exists resp, env_get (serves 40) = GetResponse resp /\
    is_success (status_code resp) = true /\ broken resp = None /\
    fs run.2 !! file_path run.1 = Some (File (List.concat (body resp))) /\
    file_size run.1 = total_length (body resp) /\
    content_type run.1 = resp_content_type resp /\
    (body resp = [] \/ total_length (body resp) <= 500 * 1024 * 1024).
Proof.
  intros run.
  assert (_download_single_file_internal (platform := reference_platform) example_url
            "/tmp/t" None 60 500 (serves 40) empty_world = (run.1, run.2)) as Hrun
    by (vm_compute; reflexivity).
  assert (success run.1 = true) as Hsucc by (vm_compute; reflexivity).
  exact (download_saves_body (platform := reference_platform) example_url "/tmp/t" None
           60 500 (serves 40) empty_world run.1 run.2 Hrun Hsucc).
Defined.

(** X11 at the download of the examples. *)
Lemma download_succeeds_iff_witness :
  success (_download_single_file_internal (platform := reference_platform) example_url
             "/tmp/t" None 60 500 (serves 40) empty_world).1 = true <->
  broken (ok_response (Some "application/json") [List.repeat x20 40]) = None /\
  (body (ok_response (Some "application/json") [List.repeat x20 40]) = [] \/
   total_length (body (ok_response (Some "application/json") [List.repeat x20 40])) <=
     500 * 1024 * 1024).
Proof.
  eapply (download_succeeds_iff (platform := reference_platform) example_url "/tmp/t"
            None 60 500 (serves 40) empty_world).
  - vm_compute. reflexivity.
  - vm_compute. reflexivity.
  - vm_compute. reflexivity.
  - reflexivity.
Defined.

(** X12 at a stream that breaks after five bytes. *)
Lemma broken_stream_leaves_file_witness :
  exists w',
    _download_single_file_internal (platform := reference_platform) example_url "/tmp/t"
      None 60 500 (breaks_after 5) empty_world =
      (failure "data.json" "peer closed connection without sending complete message body",
       w') /\
    fs w' !! "/tmp/t/data.json" = Some (File (List.repeat x20 5)).
Proof.
  edestruct (broken_stream_leaves_file (platform := reference_platform) example_url
               "/tmp/t" None 60 500 (breaks_after 5) empty_world) as (w' & Hrun & Hfile).
  - vm_compute. reflexivity.
  - vm_compute. reflexivity.
  - vm_compute. reflexivity.
  - reflexivity.
  - reflexivity.
  - right. vm_compute. intros H. discriminate H.
  - exists w'. split; [exact Hrun|exact Hfile].
Defined.

(** X13 at an answer with status 404. *)
Lemma get_failure_reported_witness :
  let run := _download_single_file_internal (platform := reference_platform) example_url
               "/tmp/t" None 60 500 not_found empty_world in
  run.1 = failure "data.json"
            "Client error '404 Not Found' for url 'https://example.com/b'" /\
  fs run.2 !! "/tmp/t/data.json" = None /\
  log run.2 = [HEAD example_url; GET example_url].
Proof.
  intros run.
  edestruct (get_failure_reported (platform := reference_platform) example_url "/tmp/t"
               None 60 500 not_found empty_world) as (Hrun & Hnone & Hlog).
  - vm_compute. reflexivity.
  - vm_compute. reflexivity.
  - reflexivity.
  - unfold run. rewrite Hrun. split; [reflexivity|]. split; [exact Hnone|exact Hlog].
Defined.


(** X16 at a [Content-Length] that is no number. *)
Lemma content_length_malformed_witness :
  let run := _download_single_file_internal (platform := reference_platform) example_url
               "/tmp/t" None 60 500 (announces "abc") empty_world in
  run.1 = failure "data.json" "invalid literal for int() with base 10: 'abc'" /\
  log run.2 = [HEAD example_url].
Proof.
  intros run.
  edestruct (content_length_malformed (platform := reference_platform) example_url
               "/tmp/t" None 60 500 (announces "abc") empty_world) as (Hrun & Hlog).
  - vm_compute. reflexivity.
  - reflexivity.
  - reflexivity.
  - vm_compute. reflexivity.
  - unfold run. rewrite Hrun. split; [reflexivity|exact Hlog].
Defined.

(** X17 at a [Content-Length] of 40. *)
Lemma content_length_within_limit_witness :
  _download_single_file_internal (platform := reference_platform) example_url "/tmp/t"
    None 60 500 (announces "40") empty_world =
  _download_single_file_internal (platform := reference_platform) example_url "/tmp/t"
    None 60 500
    {| env_head := HeadResponse None; env_get := env_get (announces "40") |} empty_world.
Proof.
  apply content_length_within_limit with (content_length := "40"); [reflexivity|].
  right. exists 40. split; [vm_compute; reflexivity|lia].
Defined.

(** X18 at the download of the examples: [/tmp/t] is created. *)
Lemma output_dir_created_witness :
  fs_is_dir
    (fs (_download_single_file_internal (platform := reference_platform) example_url
           "/tmp/t" None 60 500 (serves 40) empty_world).2) (Path "/tmp/t") = true.
Proof.
  eapply (output_dir_created (platform := reference_platform) example_url "/tmp/t" None
            60 500 (serves 40) empty_world).
  - apply surjective_pairing.
  - right. vm_compute. reflexivity.
Defined.

(** X19 at [/tmp/t], a regular file. *)
Lemma output_dir_is_file_witness :
  _download_single_file_internal (platform := reference_platform) example_url "/tmp/t"
    None 60 500 (serves 40) tmp_t_file_world =
    (failure "" "[Errno 17] File exists: '/tmp/t'", tmp_t_file_world).
Proof.
  assert (parts (Path "/tmp/t") <> []) as Hparts by (vm_compute; intros H; discriminate H).
  assert (fs tmp_t_file_world !! path_str (Path "/tmp/t") = Some (File [])) as Hfile
    by (vm_compute; reflexivity).
  assert (fs_is_dir (fs tmp_t_file_world) (pathlib.parent (Path "/tmp/t")) = true)
    as Hparent by (vm_compute; reflexivity).
  exact (output_dir_is_file (platform := reference_platform) example_url "/tmp/t" None
           60 500 (serves 40) tmp_t_file_world [] eq_refl Hparts Hfile Hparent).
Defined.

(** X21 at a batch whose second URL has the scheme [ftp]. *)
Lemma batch_rejects_invalid_urls_witness :
  results (download_files (platform := reference_platform)
             [example_url; "ftp://example.com/a"] (Some "/tmp/t") 60 500
             (fun _ => serves 40) [1; 0; 0]%nat empty_world).1 !! 1%nat =
    Some (failure "" "Invalid URL format. URL must start with http:// or https://").
Proof.
  exact (batch_rejects_invalid_urls (platform := reference_platform)
           [example_url; "ftp://example.com/a"] (Some "/tmp/t") 60 500
           (fun _ => serves 40) [1; 0; 0]%nat empty_world 1 "ftp://example.com/a"
           eq_refl eq_refl eq_refl).
Defined.

(** X22 at two bodies of one and of two bytes from the same URL: both
    downloads succeed and report [/tmp/t/data.json], the first with the size
    1; the file holds the two bytes of the second. *)
Lemma batch_same_name_shares_path_witness :
  let run := download_files (platform := reference_platform) [example_url; example_url]
               (Some "/tmp/t") 60 500 (fun i => serves (S i)) [0; 1]%nat tmp_t_world in
  exists r0 r1, results run.1 = [r0; r1] /\
    success r0 = true /\ success r1 = true /\ success_count run.1 = 2 /\
    file_path r0 = file_path r1 /\
    file_size r0 = 1 /\ file_size r1 = 2 /\
    fs run.2 !! file_path r0 = Some (File [x20; x20]).
Proof.
  intros run.
  set (r0 := {| file_path := "/tmp/t/data.json"; file_name := "data.json";
                file_size := 1; content_type := Some "application/json";
                success := true; error := None |}).
  set (r1 := {| file_path := "/tmp/t/data.json"; file_name := "data.json";
                file_size := 2; content_type := Some "application/json";
                success := true; error := None |}).
  assert (results run.1 = [r0; r1]) as Hres by (vm_compute; reflexivity).
  assert (fs_is_dir (fs tmp_t_world) (Path "/tmp/t") = true) as Hdir
    by (vm_compute; reflexivity).
  assert (fs_is_dir (fs tmp_t_world) (pathlib.parent (Path "/tmp/t")) = true) as Hparent
    by (vm_compute; reflexivity).
  exists r0, r1. split; [exact Hres|]. split; [reflexivity|]. split; [reflexivity|].
  split; [vm_compute; reflexivity|]. split.
  - exact (batch_same_name_shares_path (platform := reference_platform) example_url
             "/tmp/t" 60 500 (fun i => serves (S i)) [] tmp_t_world r0 r1 Hdir Hparent
             Hres eq_refl eq_refl).
  - split; [reflexivity|]. split; [reflexivity|]. vm_compute. reflexivity.
Defined.
